(** * ms_to_camelot: the extraction engine and the session mapper

    A shallow embedding of [parser_mainstage.py], [models.py] and
    [emit_camelot.py].  Python values decoded by [plistlib] are an inductive
    type, text is a list of Unicode code points, a raised exception is the
    [Raise] branch of a result type, and the wall clock read by the session
    mapper is an explicit argument. *)

From Stdlib Require Import ZArith NArith List String Ascii Bool Lia.
From Stdlib Require Import Strings.Byte.
From Stdlib Require Import DecimalString SpecFloat.
Import ListNotations.

Set Warnings "-register-all".
Open Scope Z_scope.

(* ================================================================== *)
(** * Python values, text and exceptions *)

Module Py.

(** A [str] is a sequence of Unicode code points. *)
Definition char := N.
Definition pystr := list char.

(** An ASCII literal of the source, as code points. *)
Definition lit (s : string) : pystr := map N_of_ascii (list_ascii_of_string s).

Definition backslash : char := 92%N.
(** U+2014, the dash the display names are joined with. *)
Definition em_dash : char := 8212%N.
Definition space : char := 32%N.

Fixpoint str_eqb (a b : pystr) : bool :=
  match a, b with
  | [], [] => true
  | x :: a', y :: b' => N.eqb x y && str_eqb a' b'
  | _, _ => false
  end.

(** What [plistlib] decodes to: the scalars, byte blobs, dates, UIDs, lists
    and string-keyed dictionaries (insertion order kept). *)
Inductive value : Type :=
| VNone
| VBool (b : bool)
| VInt (z : Z)
| VFloat (f : spec_float)
| VStr (s : pystr)
| VBytes (b : list byte)
| VDate (t : Z)
| VUid (z : Z)
| VList (l : list value)
| VDict (d : list (pystr * value)).

Definition dict := list (pystr * value).

Inductive exn := AttributeError | TypeError | ValueError | OverflowError.

Inductive result (A : Type) : Type :=
| Ok (a : A)
| Raise (e : exn).
Arguments Ok {A} a.
Arguments Raise {A} e.

Definition bind {A B} (r : result A) (k : A -> result B) : result B :=
  match r with
  | Ok a => k a
  | Raise e => Raise e
  end.

Notation "x <- r ;; k" := (bind r (fun x => k))
  (at level 61, r at next level, right associativity).

Section Loops.
Context {A B : Type} (f : A -> result (list B)).

(** [for x in xs: out.extend(f(x))], stopping at the first exception. *)
Fixpoint extend_each (xs : list A) : result (list B) :=
  match xs with
  | [] => Ok []
  | x :: xs' => ys <- f x ;; zs <- extend_each xs' ;; Ok (ys ++ zs)
  end.

End Loops.

(** ** Truth value, [or], dictionary access *)

Definition is_zero_float (f : spec_float) : bool :=
  match f with S754_zero _ => true | _ => false end.

Definition truthy (v : value) : bool :=
  match v with
  | VNone => false
  | VBool b => b
  | VInt z => negb (Z.eqb z 0)
  | VFloat f => negb (is_zero_float f)
  | VStr s => match s with [] => false | _ => true end
  | VBytes b => match b with [] => false | _ => true end
  | VDate _ | VUid _ => true
  | VList l => match l with [] => false | _ => true end
  | VDict d => match d with [] => false | _ => true end
  end.

(** [a or b] on values both already evaluated ([dict.get] has no effect). *)
Definition por (a b : value) : value := if truthy a then a else b.

Fixpoint lookup (d : dict) (k : pystr) : option value :=
  match d with
  | [] => None
  | (k', v) :: d' => if str_eqb k' k then Some v else lookup d' k
  end.

(** [d.get(k)]: [None] when the key is absent. *)
Definition dict_get (d : dict) (k : pystr) : value :=
  match lookup d k with Some v => v | None => VNone end.

(** [k in d]. *)
Definition dict_mem (d : dict) (k : pystr) : bool :=
  match lookup d k with Some _ => true | None => false end.

(** [d[k] = v]: the entry keeps its place, a new key goes last. *)
Fixpoint dict_set (d : dict) (k : pystr) (v : value) : dict :=
  match d with
  | [] => [(k, v)]
  | (k', v') :: d' =>
      if str_eqb k' k then (k', v) :: d' else (k', v') :: dict_set d' k v
  end.

(** [d.get(k, default)]. *)
Definition dict_get_default (d : dict) (k : pystr) (default : value) : value :=
  match lookup d k with Some v => v | None => default end.

Section FindEntry.
Context {A : Type} (k : pystr) (absent : A) (found : value -> A).

(** [found (d[k])] when [k in d], else [absent]: [lookup] with the use of
    the entry passed in, for functions that recurse into the entry. *)
Fixpoint find_entry (d : dict) : A :=
  match d with
  | [] => absent
  | (k', v) :: d' => if str_eqb k' k then found v else find_entry d'
  end.

End FindEntry.

Notation "a |? b" := (por a b) (at level 50, left associativity).

(** [x.get(k)] on any value: only a dictionary has the method. *)
Definition get (x : value) (k : pystr) : result value :=
  match x with
  | VDict d => Ok (dict_get d k)
  | _ => Raise AttributeError
  end.

(** [for o in x]: what iterating a value yields. *)
Definition iterate (x : value) : result (list value) :=
  match x with
  | VList l => Ok l
  | VDict d => Ok (map (fun kv => VStr (fst kv)) d)
  | VStr s => Ok (map (fun c => VStr [c]) s)
  | VBytes b => Ok (map (fun c => VInt (Z.of_N (Byte.to_N c))) b)
  | VNone | VBool _ | VInt _ | VFloat _ | VDate _ | VUid _ => Raise TypeError
  end.

(** ** Text *)

(** [str.isspace] of one code point, which [split()] and [strip()] use. *)
Definition isspace (c : char) : bool :=
  ((9 <=? c) && (c <=? 13) || (28 <=? c) && (c <=? 32)
   || (c =? 133) || (c =? 160) || (c =? 5760)
   || (8192 <=? c) && (c <=? 8202)
   || (c =? 8232) || (c =? 8233) || (c =? 8239) || (c =? 8287)
   || (c =? 12288))%N.

Fixpoint startswith (s p : pystr) {struct p} : bool :=
  match p, s with
  | [], _ => true
  | x :: p', y :: s' => N.eqb x y && startswith s' p'
  | _ :: _, [] => false
  end.

(** [p in s] for text. *)
Fixpoint contains (p s : pystr) : bool :=
  startswith s p || match s with [] => false | _ :: s' => contains p s' end.

(** [s.replace(old, new)] for a non-empty [old]: occurrences are taken left
    to right and do not overlap; [skip] counts the code points of the
    occurrence being replaced that are still to be passed. *)
Fixpoint replace_from (old new : pystr) (skip : nat) (s : pystr) : pystr :=
  match s with
  | [] => []
  | c :: s' =>
      match skip with
      | S k => replace_from old new k s'
      | O =>
          if startswith s old
          then new ++ replace_from old new (pred (List.length old)) s'
          else c :: replace_from old new O s'
      end
  end.

Definition replace (old new s : pystr) : pystr := replace_from old new O s.

(** [words s]: the run of non-space code points [s] begins with, and the
    words after it. *)
Fixpoint words (s : pystr) : pystr * list pystr :=
  match s with
  | [] => ([], [])
  | c :: s' =>
      let (w, ws) := words s' in
      if isspace c
      then ([], match w with [] => ws | _ => w :: ws end)
      else (c :: w, ws)
  end.

(** [s.split()]. *)
Definition split (s : pystr) : list pystr :=
  let (w, ws) := words s in
  match w with [] => ws | _ => w :: ws end.

(** [sep.join(ws)]. *)
Fixpoint join (sep : pystr) (ws : list pystr) : pystr :=
  match ws with
  | [] => []
  | [w] => w
  | w :: ws' => w ++ sep ++ join sep ws'
  end.

Fixpoint lstrip (s : pystr) : pystr :=
  match s with
  | [] => []
  | c :: s' => if isspace c then lstrip s' else s
  end.

Definition rstrip (s : pystr) : pystr := rev (lstrip (rev s)).

(** [s.strip()]. *)
Definition strip (s : pystr) : pystr := rstrip (lstrip s).

Definition is_ascii (c : char) : bool := (c <? 128)%N.

(** The result of [.lower()]: text, or bytes when called on bytes. *)
Inductive text := TStr (s : pystr) | TBytes (b : list byte).

Definition byte_lower (c : byte) : byte :=
  let n := Byte.to_N c in
  if ((65 <=? n) && (n <=? 90))%N
  then match Byte.of_N (n + 32) with Some c' => c' | None => c end
  else c.

Definition ascii_lower (c : char) : char :=
  if ((65 <=? c) && (c <=? 90))%N then (c + 32)%N else c.

(** [str(z)] of an integer. *)
Definition decimal (z : Z) : pystr := lit (NilEmpty.string_of_int (Z.to_int z)).

(** ** Builtins taken as given

    The parts of the interpreter and of [plistlib] the engine calls and this
    development does not define: lower-casing of text that is not ASCII,
    [str()] of a value that is neither text, an integer, a Boolean nor
    [None], [int()] of text and of bytes ([None] for [ValueError]), and
    [plistlib.loads] ([None] when it raises). *)
Class Builtins : Type := {
  unicode_lower : pystr -> pystr;
  py_repr : value -> pystr;
  int_of_str : pystr -> option Z;
  int_of_bytes : list byte -> option Z;
  plistlib_loads : list byte -> option value
}.

Section WithBuiltins.
Context {B : Builtins}.

(** [s.lower()]. *)
Definition lower (s : pystr) : pystr :=
  if forallb is_ascii s then map ascii_lower s else unicode_lower s.

(** [v.lower()] on any value: text and bytes have the method. *)
Definition lower_method (v : value) : result text :=
  match v with
  | VStr s => Ok (TStr (lower s))
  | VBytes b => Ok (TBytes (map byte_lower b))
  | _ => Raise AttributeError
  end.

(** [t.startswith(p)] with [p] text: bytes refuse a text prefix. *)
Definition startswith_method (t : text) (p : pystr) : result bool :=
  match t with
  | TStr s => Ok (startswith s p)
  | TBytes _ => Raise TypeError
  end.

(** [p in t] with [p] text: bytes refuse a text needle. *)
Definition contains_method (p : pystr) (t : text) : result bool :=
  match t with
  | TStr s => Ok (contains p s)
  | TBytes _ => Raise TypeError
  end.

(** [str(v)]. *)
Definition py_str (v : value) : pystr :=
  match v with
  | VStr s => s
  | VNone => lit "None"
  | VBool true => lit "True"
  | VBool false => lit "False"
  | VInt z => decimal z
  | _ => py_repr v
  end.

(** [int(v)]: a float is truncated toward zero. *)
Definition py_int (v : value) : result Z :=
  match v with
  | VInt z => Ok z
  | VBool b => Ok (if b then 1 else 0)
  | VUid z => Ok z
  | VFloat (S754_zero _) => Ok 0
  | VFloat (S754_finite s m e) =>
      let a := Z.shiftl (Z.pos m) e in Ok (if s then - a else a)
  | VFloat (S754_infinity _) => Raise OverflowError
  | VFloat S754_nan => Raise ValueError
  | VStr s =>
      match int_of_str s with Some z => Ok z | None => Raise ValueError end
  | VBytes b =>
      match int_of_bytes b with Some z => Ok z | None => Raise ValueError end
  | VNone | VDate _ | VList _ | VDict _ => Raise TypeError
  end.

End WithBuiltins.

(** [float(v)] of a number (binary64, round to nearest even). *)
Definition py_float (v : value) : result spec_float :=
  match v with
  | VFloat f => Ok f
  | VInt z =>
      match binary_normalize 53 1024 z 0 false with
      | S754_infinity _ => Raise OverflowError
      | f => Ok f
      end
  | VBool b => Ok (binary_normalize 53 1024 (if b then 1 else 0) 0 false)
  | _ => Raise TypeError
  end.

(** [isinstance(v, (int, float))]; a [bool] is an [int]. *)
Definition is_number (v : value) : bool :=
  match v with VInt _ | VBool _ | VFloat _ => true | _ => false end.

End Py.

(* ================================================================== *)
(** * models.py: the normalized domain model *)

Module KeyRange.
Record t := mk { low : Z; high : Z }.
End KeyRange.

Module Plugin.
Record t := mk {
  name : Py.pystr;
  manufacturer : option Py.pystr;
  kind : option Py.pystr;
  identifier : option Py.pystr;
  params : Py.dict
}.
End Plugin.

Module ChannelStrip.
Record t := mk {
  name : Py.pystr;
  kind : Py.pystr;
  midi_channel : option Z;
  key_range : option KeyRange.t;
  transpose : Z;
  plugins : list Plugin.t;
  notes : Py.dict
}.
End ChannelStrip.

Module Patch.
Record t := mk {
  name : Py.pystr;
  channel_strips : list ChannelStrip.t;
  attributes : Py.dict
}.
End Patch.

(** The class [Set] of the source ([Set] is a sort here). *)
Module Set_.
Record t := mk {
  name : Py.pystr;
  patches : list Patch.t;
  attributes : Py.dict
}.
End Set_.

Module Concert.
Record t := mk {
  name : Py.pystr;
  sets : list Set_.t;
  attributes : Py.dict
}.
End Concert.

Module Models.
Import Py.

Definition NOTE_NAMES : list pystr :=
  map lit ["C"; "C#"; "D"; "D#"; "E"; "F"; "F#"; "G"; "G#"; "A"; "A#"; "B"]%string.

Definition midi_to_note (n : option Z) : pystr :=
  match n with
  | None => []
  | Some n =>
      let n := Z.max 0 (Z.min 127 n) in
      let name := nth (Z.to_nat (n mod 12)) NOTE_NAMES [] in
      let octave := n / 12 - 1 in
      name ++ decimal octave
  end.

(** The dictionary [KeyRange.to_dict] builds. *)
Record KeyRangeDict := {
  kr_low : Z;
  kr_high : Z;
  kr_lowName : pystr;
  kr_highName : pystr
}.

Definition to_dict (self : KeyRange.t) : KeyRangeDict :=
  {| kr_low := KeyRange.low self;
     kr_high := KeyRange.high self;
     kr_lowName := midi_to_note (Some (KeyRange.low self));
     kr_highName := midi_to_note (Some (KeyRange.high self)) |}.

End Models.

(* ================================================================== *)
(** * parser_mainstage.py: the heuristic walker and the legacy channels *)

Module Parser.
Import Py.

(** What [classify_node] returns: "set", "patch" or "unknown". *)
Inductive node_kind := KSet | KPatch | KUnknown.

Definition is_patch (k : node_kind) : bool :=
  match k with KPatch => true | _ => false end.

(** A function whose first step is [node.get(...)] raises [AttributeError]
    on a value that is not a dictionary. *)
Definition on_dict {A} (node : value) (f : dict -> result A) : result A :=
  match node with
  | VDict d => f d
  | _ => Raise AttributeError
  end.

Definition is_list (v : value) : bool :=
  match v with VList _ => true | _ => false end.

(** [o or default] for an optional text. *)
Definition text_or (o : option pystr) (default : pystr) : pystr :=
  match o with
  | Some (c :: s) => c :: s
  | _ => default
  end.

(** Space, U+2014, space: what stands for a path separator in a display name. *)
Definition dash_sep : pystr := [space; em_dash; space].

Definition normalize_name (name : value) : pystr :=
  match name with
  | VStr n =>
      let s := replace (lit "/") dash_sep (replace [backslash] dash_sep n) in
      let s := replace [space; space; em_dash; space] dash_sep
                 (replace [space; em_dash; space; space] dash_sep s) in
      let s := join (lit " ") (split s) in
      strip s
  | _ => []
  end.

Section Walker.
Context {B : Builtins}.

Definition coerce_int (v : value) : option Z :=
  match v with
  | VNone => None
  | _ => match py_int v with Ok z => Some z | Raise _ => None end
  end.

Definition node_class (node : value) : result pystr :=
  on_dict node (fun d =>
    Ok (py_str (dict_get d (lit "class") |? dict_get d (lit "_class")
                |? dict_get d (lit "isa") |? dict_get d (lit "type")
                |? VStr []))).

Definition node_name (node : value) : result (option pystr) :=
  on_dict node (fun d =>
    let v := dict_get d (lit "name") |? dict_get d (lit "Name")
             |? dict_get d (lit "title") |? dict_get d (lit "Title") in
    Ok (match v with VStr s => Some s | _ => None end)).

Definition classify_node (node : value) : result node_kind :=
  c <- node_class node ;;
  let cls := lower c in
  on_dict node (fun d =>
    name <- lower_method
              (dict_get d (lit "name") |? dict_get d (lit "Name") |? VStr []) ;;
    is_set <- (if contains (lit "set") cls then Ok true
               else startswith_method name (lit "set ")) ;;
    if is_set then Ok KSet
    else if contains (lit "patch") cls then Ok KPatch
    else if is_list (dict_get d (lit "children") |? dict_get d (lit "_children"))
    then Ok KSet
    else Ok KUnknown).

(** The loop of [find_patchlist_children] over the known keys. *)
Fixpoint first_nonempty_list (d : dict) (keys : list pystr)
  : option (list value) :=
  match keys with
  | [] => None
  | key :: keys' =>
      match dict_get d key with
      | VList (x :: l) => Some (x :: l)
      | _ => first_nonempty_list d keys'
      end
  end.

Definition patchlist_keys : list pystr :=
  map lit ["children"; "_children"; "patches"; "sets"; "rootChildren";
           "PatchList"]%string.

Fixpoint find_patchlist_children (raw : value)
  : result (option (list value)) :=
  match raw with
  | VDict d =>
      match first_nonempty_list d patchlist_keys with
      | Some l => Ok (Some l)
      | None =>
          (fix values (es : dict) : result (option (list value)) :=
             match es with
             | [] => Ok None
             | (_, v) :: es' =>
                 match v with
                 | VDict _ =>
                     r <- find_patchlist_children v ;;
                     match r with
                     | Some (x :: l) => Ok (Some (x :: l))
                     | _ => values es'
                     end
                 | _ => values es'
                 end
             end) d
      end
  | _ => Raise AttributeError
  end.

Definition strip_kind_keys : list pystr :=
  map lit ["instrument"; "softwareInstrument"; "instrumentPlugin"]%string.

Definition infer_strip_kind (raw_strip : value) : result pystr :=
  on_dict raw_strip (fun d =>
    k <- lower_method (dict_get d (lit "stripType") |? dict_get d (lit "type")
                       |? VStr []) ;;
    inst <- contains_method (lit "inst") k ;;
    if inst then Ok (lit "instrument") else
    audio <- contains_method (lit "audio") k ;;
    if audio then Ok (lit "audio") else
    midi <- contains_method (lit "midi") k ;;
    if midi then Ok (lit "midi") else
    if existsb (dict_mem d) strip_kind_keys then Ok (lit "instrument")
    else Ok (lit "instrument")).

(** The loop of [infer_key_range] over the candidate pairs. *)
Fixpoint first_range (candidates : list (value * value))
  : option KeyRange.t :=
  match candidates with
  | [] => None
  | (low, high) :: rest =>
      match coerce_int low, coerce_int high with
      | Some low_i, Some high_i =>
          Some (KeyRange.mk (Z.max 0 (Z.min 127 low_i))
                            (Z.max 0 (Z.min 127 high_i)))
      | _, _ => first_range rest
      end
  end.

Definition infer_key_range (raw_strip : value) : result (option KeyRange.t) :=
  on_dict raw_strip (fun d =>
    let candidates :=
      [ (dict_get d (lit "keyRangeLow"), dict_get d (lit "keyRangeHigh"));
        (dict_get d (lit "keyLow"), dict_get d (lit "keyHigh"));
        (dict_get d (lit "noteLow"), dict_get d (lit "noteHigh"));
        (dict_get d (lit "lowKey"), dict_get d (lit "highKey")) ] in
    Ok (first_range candidates)).

Fixpoint _first_str (d : dict) (keys : list pystr) : option pystr :=
  match keys with
  | [] => None
  | k :: keys' =>
      match dict_get d k with
      | VStr s =>
          match strip s with
          | [] => _first_str d keys'
          | c :: s' => Some (c :: s')
          end
      | _ => _first_str d keys'
      end
  end.

Definition plugin_of (p : dict) : Plugin.t :=
  let name := text_or (_first_str p (map lit ["name"; "Name"; "title"; "Title"]%string))
                      (lit "Plugin") in
  let manufacturer := _first_str p (map lit ["manufacturer"; "maker"]%string) in
  let kind := _first_str p (map lit ["type"; "kind"]%string) in
  let ident := _first_str p (map lit ["identifier"; "bundleID"; "componentID"]%string) in
  let params := match dict_get p (lit "params") with VDict ps => ps | _ => [] end in
  Plugin.mk name manufacturer kind ident params.

(** The dictionaries among a list of values, in order. *)
Fixpoint dicts_of (vs : list value) : list dict :=
  match vs with
  | [] => []
  | VDict d :: vs' => d :: dicts_of vs'
  | _ :: vs' => dicts_of vs'
  end.

Definition infer_plugins (raw_strip : value) : result (list Plugin.t) :=
  on_dict raw_strip (fun d =>
    let slots :=
      dicts_of (map (dict_get d)
                  (map lit ["instrument"; "instrumentPlugin";
                            "softwareInstrument"]%string)) in
    let inserts := dict_get d (lit "inserts") |? dict_get d (lit "audioFX")
                   |? VList [] in
    let possibles :=
      match inserts with
      | VList l => slots ++ dicts_of l
      | _ => slots
      end in
    Ok (map plugin_of possibles)).

Definition parse_channel_strip (raw_strip : value) : result ChannelStrip.t :=
  on_dict raw_strip (fun d =>
    let name := normalize_name
                  (dict_get d (lit "name") |? dict_get d (lit "stripName")
                   |? dict_get d (lit "Name") |? VStr (lit "Strip")) in
    kind <- infer_strip_kind raw_strip ;;
    let midi_channel :=
      coerce_int (dict_get d (lit "midiChannel") |? dict_get d (lit "midi_channel")) in
    let transpose := coerce_int (dict_get d (lit "transpose") |? VInt 0) in
    key_range <- infer_key_range raw_strip ;;
    plugins <- infer_plugins raw_strip ;;
    Ok (ChannelStrip.mk name kind midi_channel key_range
          (match transpose with Some z => z | None => 0 end)
          plugins
          [(lit "_sourceClass",
            dict_get d (lit "class") |? dict_get d (lit "_class"))])).

Definition strip_list_keys : list pystr :=
  map lit ["channelStrips"; "channel_strips"; "strips"; "mixerStrips"]%string.

Definition strip_marker_keys : list pystr :=
  map lit ["stripType"; "strip"; "instrument"; "plugins"]%string.

(** The first loop of [extract_channel_strips]: the value under the first
    known key that holds a list, the empty list when none does. *)
Fixpoint first_list (d : dict) (keys : list pystr) : list value :=
  match keys with
  | [] => []
  | key :: keys' =>
      match dict_get d key with
      | VList l => l
      | _ => first_list d keys'
      end
  end.

(** Its second loop: the first list-valued field whose first element is a
    dictionary with one of the marker keys. *)
Fixpoint first_strip_like (items : dict) : list value :=
  match items with
  | [] => []
  | (_, v) :: items' =>
      match v with
      | VList (VDict d0 :: l) =>
          if existsb (dict_mem d0) strip_marker_keys
          then VDict d0 :: l
          else first_strip_like items'
      | _ => first_strip_like items'
      end
  end.

Definition extract_channel_strips (node : value)
  : result (list ChannelStrip.t) :=
  on_dict node (fun d =>
    let candidates := first_list d strip_list_keys in
    let candidates :=
      match candidates with
      | [] => first_strip_like d
      | _ => candidates
      end in
    extend_each (fun raw_strip => cs <- parse_channel_strip raw_strip ;; Ok [cs])
                candidates).

(** The last loop of [infer_bpm_from_node], over [node.items()]. *)
Fixpoint nested_tempo (items : dict) : result (option spec_float) :=
  match items with
  | [] => Ok None
  | (_, v) :: items' =>
      match v with
      | VDict dv =>
          let t := dict_get dv (lit "tempo") in
          if is_number t then f <- py_float t ;; Ok (Some f)
          else nested_tempo items'
      | _ => nested_tempo items'
      end
  end.

Definition infer_bpm_from_node (node : value) : result (option spec_float) :=
  on_dict node (fun d =>
    if is_number (dict_get d (lit "tempo"))
    then f <- py_float (dict_get d (lit "tempo")) ;; Ok (Some f)
    else
      let direct :=
        match dict_get d (lit "engineNode") with
        | VDict eng =>
            let t := dict_get eng (lit "tempo") in
            if is_number t then Some t else None
        | _ => None
        end in
      match direct with
      | Some t => f <- py_float t ;; Ok (Some f)
      | None => nested_tempo d
      end).

Definition extract_patch (node : value) : result Patch.t :=
  n <- node_name node ;;
  let name := normalize_name (VStr (text_or n (lit "Patch"))) in
  strips <- extract_channel_strips node ;;
  c <- node_class node ;;
  let attrs := [(lit "_sourceClass", VStr c)] in
  bpm <- infer_bpm_from_node node ;;
  let attrs :=
    match bpm with
    | Some f => dict_set attrs (lit "bpm") (VFloat f)
    | None => attrs
    end in
  Ok (Patch.mk name strips attrs).

Fixpoint extract_patches_recursive (node : value) : result (list Patch.t) :=
  k <- classify_node node ;;
  out <- (if is_patch k then p <- extract_patch node ;; Ok [p] else Ok []) ;;
  match node with
  | VDict d =>
      let under key :=
        find_entry key (Ok [])
          (fun ch =>
             match ch with
             | VList l => extend_each extract_patches_recursive l
             | _ => Ok []
             end) d in
      a <- under (lit "children") ;;
      b <- under (lit "_children") ;;
      c <- under (lit "patches") ;;
      Ok (out ++ a ++ b ++ c)
  | _ => Raise AttributeError
  end.

Definition extract_patches_from_set (node : value) : result (list Patch.t) :=
  on_dict node (fun d =>
    let children := dict_get d (lit "children") |? dict_get d (lit "_children")
                    |? dict_get d (lit "patches") |? VList [] in
    chs <- iterate children ;;
    extend_each
      (fun ch =>
         k <- classify_node ch ;;
         if is_patch k then p <- extract_patch ch ;; Ok [p]
         else extract_patches_recursive ch)
      chs).

(** The body of the loop of [extract_sets_and_patches]: the sets one root
    child appends. *)
Definition sets_of_child (child : value) : result (list Set_.t) :=
  child_type <- classify_node child ;;
  match child_type with
  | KSet =>
      n <- node_name child ;;
      let set_name := normalize_name (VStr (text_or n (lit "Set"))) in
      patches <- extract_patches_from_set child ;;
      c <- node_class child ;;
      Ok [Set_.mk set_name patches [(lit "_sourceClass", VStr c)]]
  | KPatch =>
      patch <- extract_patch child ;;
      Ok [Set_.mk (Patch.name patch) [patch] [(lit "_implicit", VBool true)]]
  | KUnknown =>
      patches <- extract_patches_recursive child ;;
      match patches with
      | [] => Ok []
      | _ =>
          n <- node_name child ;;
          c <- node_class child ;;
          Ok [Set_.mk (text_or n (lit "Set")) patches
                [(lit "_sourceClass", VStr c)]]
      end
  end.

Definition extract_sets_and_patches (raw : value) : result (list Set_.t) :=
  root_children <- find_patchlist_children raw ;;
  match root_children with
  | Some (x :: l) =>
      sets <- extend_each sets_of_child (x :: l) ;;
      match sets with
      | [] =>
          patches <- extract_patches_recursive raw ;;
          Ok [Set_.mk (lit "Default") patches []]
      | _ => Ok sets
      end
  | _ =>
      patches <- extract_patches_recursive raw ;;
      Ok [Set_.mk (lit "Default") patches []]
  end.

(** ** The legacy channels *)

Definition is_note_object (o : value) : bool :=
  match o with
  | VDict d => dict_mem d (lit "lowNote") && dict_mem d (lit "highNote")
  | _ => false
  end.

(** The body of the [try] of [parse_legacy_channel]: the key range and the
    transpose it assigns.  Every step that can raise (decoding, [.get] on
    what was decoded, iterating the objects) comes before the first
    assignment, so an exception leaves both at their initial values. *)
Definition decode_layer (layer_blob : list byte)
  : result (option KeyRange.t * Z) :=
  layer <- match plistlib_loads layer_blob with
           | Some v => Ok v
           | None => Raise ValueError
           end ;;
  objects <- on_dict layer (fun d =>
               Ok (dict_get_default d (lit "$objects") (VList []))) ;;
  os <- iterate objects ;;
  match find is_note_object os with
  | Some (VDict target) =>
      if truthy (VDict target) then
        let low := coerce_int (dict_get target (lit "lowNote")) in
        let high := coerce_int (dict_get target (lit "highNote")) in
        let key_range :=
          match low, high with
          | Some low, Some high =>
              Some (KeyRange.mk (Z.max 0 (Z.min 127 low))
                                (Z.max 0 (Z.min 127 high)))
          | _, _ => None
          end in
        let tz := coerce_int (dict_get target (lit "transpose")) in
        Ok (key_range, match tz with Some z => z | None => 0 end)
      else Ok (None, 0)
  | _ => Ok (None, 0)
  end.

(** The statement [if isinstance(layer_blob, (bytes, bytearray)): try: ...
    except Exception: pass]: the key range and the transpose after it. *)
Definition decode_if_bytes (layer_blob : value) : option KeyRange.t * Z :=
  match layer_blob with
  | VBytes b =>
      match decode_layer b with
      | Ok st => st
      | Raise _ => (None, 0)
      end
  | _ => (None, 0)
  end.

Definition parse_legacy_channel (ch : value) (subpatch_name : option pystr)
  : result (option ChannelStrip.t) :=
  match ch with
  | VDict d =>
      let name := normalize_name
                    (dict_get d (lit "Channel_name") |? dict_get d (lit "name")
                     |? VStr (lit "Strip")) in
      let midi_channel : option Z := None in
      let '(key_range, transpose) := decode_if_bytes (dict_get d (lit "layer")) in
      let plugins :=
        match dict_get d (lit "Filename") with
        | VStr (c :: s) =>
            [Plugin.mk (c :: s) None (Some (lit "channelStrip")) None []]
        | _ => []
        end in
      let notes := [(lit "_legacy", VBool true)] in
      let notes :=
        match subpatch_name with
        | Some (c :: s) =>
            dict_set notes (lit "subpatch") (VStr (normalize_name (VStr (c :: s))))
        | _ => notes
        end in
      Ok (Some (ChannelStrip.mk name (lit "instrument") midi_channel key_range
                  transpose plugins notes))
  | _ => Ok None
  end.

(** The loop of [extract_from_patch_folder] over [raw["channels"]]. *)
Fixpoint legacy_strips (channels : list value) (subpatch_name : option pystr)
  : result (list ChannelStrip.t) :=
  match channels with
  | [] => Ok []
  | ch :: channels' =>
      cs <- parse_legacy_channel ch subpatch_name ;;
      rest <- legacy_strips channels' subpatch_name ;;
      Ok (match cs with Some cs => cs :: rest | None => rest end)
  end.

(** ** The concert name and the legacy tempo *)

Definition concert_name_keys : list pystr :=
  map lit ["name"; "Name"; "title"; "Title"; "concertName"]%string.

(** The loop of [infer_concert_name] over the known keys. *)
Fixpoint first_name (d : dict) (keys : list pystr) : option pystr :=
  match keys with
  | [] => None
  | key :: keys' =>
      match dict_get d key with
      | VStr v =>
          match strip v with
          | [] => first_name d keys'
          | c :: v' => Some (c :: v')
          end
      | _ => first_name d keys'
      end
  end.

Definition infer_concert_name (raw : value) : result (option pystr) :=
  on_dict raw (fun d => Ok (first_name d concert_name_keys)).

(** The body of the [try] of [infer_bpm_from_patch_dict]. *)
Definition legacy_tempo (raw : value) : result (option spec_float) :=
  on_dict raw (fun d =>
    match dict_get d (lit "patch") with
    | VDict p =>
        match dict_get p (lit "engineNode") with
        | VDict eng =>
            if negb (truthy (dict_get eng (lit "hasTempo")))
               && truthy (dict_get eng (lit "followMIDITempo"))
            then Ok None
            else
              let t := dict_get eng (lit "tempo") in
              if is_number t then f <- py_float t ;; Ok (Some f)
              else Ok None
        | _ => Ok None
        end
    | _ => Ok None
    end).

(** [except Exception: return None] around it. *)
Definition infer_bpm_from_patch_dict (raw : value) : option spec_float :=
  match legacy_tempo raw with
  | Ok r => r
  | Raise _ => None
  end.

End Walker.
End Parser.

(* ================================================================== *)
(** * emit_camelot.py: the session mapper *)

Module Emit.
Import Py Models.

(** The "source" entry of a layer: the first plugin, or the strip itself. *)
Inductive Source :=
| PluginSource (name : pystr) (manufacturer kind identifier : option pystr)
| StripSource (type name : pystr).

Record Layer := {
  layer_name : pystr;
  keyRange : option KeyRangeDict;
  layer_transpose : Z;
  source : Source;
  midiChannel : option Z;
  layer_metadata : dict
}.

Record Scene := {
  scene_name : pystr;
  layers : list Layer;
  scene_metadata : dict
}.

Record Song := {
  song_name : pystr;
  scenes : list Scene;
  song_metadata : dict
}.

Record SessionSource := {
  source_type : pystr;
  path : pystr;
  extractedAt : pystr
}.

Record Session := {
  version : Z;
  session_name : pystr;
  createdAt : pystr;
  session_source : SessionSource;
  songs : list Song;
  session_metadata : dict
}.

Definition plugin_source (cs : ChannelStrip.t) : Source :=
  match ChannelStrip.plugins cs with
  | p :: _ =>
      PluginSource (Plugin.name p) (Plugin.manufacturer p) (Plugin.kind p)
                   (Plugin.identifier p)
  | [] => StripSource (ChannelStrip.kind cs) (ChannelStrip.name cs)
  end.

Definition layer_from_strip (cs : ChannelStrip.t) : Layer :=
  {| layer_name := ChannelStrip.name cs;
     keyRange := match ChannelStrip.key_range cs with
                 | Some kr => Some (to_dict kr)
                 | None => None
                 end;
     layer_transpose := ChannelStrip.transpose cs;
     source := plugin_source cs;
     midiChannel := ChannelStrip.midi_channel cs;
     layer_metadata := ChannelStrip.notes cs |}.

Definition is_instrument (cs : ChannelStrip.t) : bool :=
  str_eqb (ChannelStrip.kind cs) (lit "instrument").

Definition not_bpm (kv : pystr * value) : bool :=
  negb (str_eqb (fst kv) (lit "bpm")).

Definition scene_from_patch (patch : Patch.t) (include_bpm : bool) : Scene :=
  let meta := Patch.attributes patch in
  let meta :=
    if negb include_bpm && dict_mem meta (lit "bpm")
    then filter not_bpm meta
    else meta in
  {| scene_name := Patch.name patch;
     layers := map layer_from_strip
                 (filter is_instrument (Patch.channel_strips patch));
     scene_metadata := meta |}.

(** [p.attributes.get("bpm") is not None]. *)
Definition has_bpm (p : Patch.t) : bool :=
  match dict_get (Patch.attributes p) (lit "bpm") with
  | VNone => false
  | _ => true
  end.

(** The song a patch becomes in flattened mode. *)
Definition song_of_patch (s : Set_.t) (p : Patch.t) : Song :=
  let meta := [(lit "_fromSet", VStr (Set_.name s))] in
  let meta :=
    if has_bpm p
    then dict_set meta (lit "bpm") (dict_get (Patch.attributes p) (lit "bpm"))
    else meta in
  {| song_name := Patch.name p;
     scenes := [scene_from_patch p true];
     song_metadata := meta |}.

(** The song a set becomes in grouped mode. *)
Definition song_of_set (s : Set_.t) : Song :=
  let meta := Set_.attributes s in
  let meta :=
    match find has_bpm (Set_.patches s) with
    | Some p => dict_set meta (lit "bpm") (dict_get (Patch.attributes p) (lit "bpm"))
    | None => meta
    end in
  {| song_name := Set_.name s;
     scenes := map (fun p => scene_from_patch p false) (Set_.patches s);
     song_metadata := meta |}.

(** [now_iso] is what [datetime.now().isoformat()] returns when the mapper
    runs: the call reads the clock, so the reading is an argument here. *)
Definition build_camelot_session (now_iso : pystr) (concert : Concert.t)
    (flatten_sets : bool) (source_path : pystr) : Session :=
  {| version := 1;
     session_name := Concert.name concert;
     createdAt := now_iso;
     session_source := {| source_type := lit "mainstage";
                          path := source_path;
                          extractedAt := now_iso |};
     songs :=
       if flatten_sets
       then flat_map (fun s => map (song_of_patch s) (Set_.patches s))
                     (Concert.sets concert)
       else map song_of_set (Concert.sets concert);
     session_metadata := Concert.attributes concert |}.

End Emit.

(* ================================================================== *)
(** * A stand-in interpreter for the examples *)

Module Fixture.
Import Py.

(** An embedded archive whose note object is out of range and reversed. *)
Definition archive : value :=
  VDict [(lit "$archiver", VStr (lit "NSKeyedArchiver"));
         (lit "$objects",
          VList [VStr (lit "$null");
                 VDict [(lit "lowNote", VInt 200);
                        (lit "highNote", VInt (-5));
                        (lit "transpose", VInt 12)]])].

(** Decoding accepts one payload (a single byte 1) and rejects the rest. *)
Definition loads (b : list byte) : option value :=
  match b with
  | [x01] => Some archive
  | _ => None
  end.

(** The examples below hold ASCII text and integers only, so they never reach
    the first four fields. *)
Definition builtins : Builtins :=
  {| unicode_lower := fun s => s;
     py_repr := fun _ => lit "<object>";
     int_of_str := fun _ => None;
     int_of_bytes := fun _ => None;
     plistlib_loads := loads |}.

(** A patch node whose name reads like a set's. *)
Definition patch_named_like_a_set : value :=
  VDict [(lit "class", VStr (lit "Patch"));
         (lit "name", VStr (lit "Set 1 Intro"))].

(** A patch node whose name is a single space. *)
Definition blank_patch : value :=
  VDict [(lit "class", VStr (lit "Patch")); (lit "name", VStr (lit " "))].

(** A document whose one patch has a strip with a numeric strip type. *)
Definition numeric_strip_type : value :=
  VDict [(lit "children",
          VList [VDict [(lit "class", VStr (lit "Patch"));
                        (lit "name", VStr (lit "Lead"));
                        (lit "channelStrips",
                         VList [VDict [(lit "name", VStr (lit "Piano"));
                                       (lit "stripType", VInt 3)]])]])].

(** A document whose one node is named by a number. *)
Definition numeric_name : value :=
  VDict [(lit "children", VList [VDict [(lit "name", VInt 7)]])].

(** A document whose patch list holds text where a node is expected. *)
Definition text_child : value :=
  VDict [(lit "children", VList [VStr (lit "Intro")])].

(** A legacy channel with a payload, and a strip with reversed bounds. *)
Definition legacy_channel (payload : list byte) : dict :=
  [(lit "Channel_name", VStr (lit "Keys")); (lit "layer", VBytes payload)].

Definition reversed_strip : dict :=
  [(lit "name", VStr (lit "Pad"));
   (lit "keyRangeLow", VInt 300); (lit "keyRangeHigh", VInt (-4))].

Definition empty_concert : Concert.t := Concert.mk (lit "Rig") [] [].

(** One set of two patches; the second declares a tempo. *)
Definition two_patch_concert : Concert.t :=
  Concert.mk (lit "Rig")
    [Set_.mk (lit "Main")
       [Patch.mk (lit "Intro") [] [];
        Patch.mk (lit "Verse") [] [(lit "bpm", VInt 120)]]
       []]
    [].

End Fixture.

(* ================================================================== *)
(** * Predicates the properties are stated with *)

Module ParserSpec.
Import Py Parser.

(** [max(0, min(127, z))]. *)
Definition clamp_note (z : Z) : Z := Z.max 0 (Z.min 127 z).

Definition in_range (kr : KeyRange.t) : Prop :=
  0 <= KeyRange.low kr <= 127 /\ 0 <= KeyRange.high kr <= 127.

(** The flat object array of a decoded archive, when it has one. *)
Definition objects_of (layer : value) : option (list value) :=
  match layer with
  | VDict d =>
      match lookup d (lit "$objects") with
      | Some (VList os) => Some os
      | _ => None
      end
  | _ => None
  end.

(** The ways an embedded payload fails to give a key range: the bytes do not
    decode, what they decode to has no flat object array, or no object of the
    array has both a low and a high note. *)
Inductive decode_failure {B : Builtins} (payload : list byte) : Prop :=
| malformed :
    plistlib_loads payload = None -> decode_failure payload
| no_object_array layer :
    plistlib_loads payload = Some layer -> objects_of layer = None ->
    decode_failure payload
| no_note_object layer os :
    plistlib_loads payload = Some layer -> objects_of layer = Some os ->
    forallb (fun o => negb (is_note_object o)) os = true ->
    decode_failure payload.

End ParserSpec.

Module TextSpec.
Import Py.

(** A code point that splitting keeps and that is no path separator. *)
Definition clean (c : char) : Prop :=
  isspace c = false /\ c <> backslash /\ c <> 47%N.

Definition word (w : pystr) : Prop := w <> [] /\ Forall clean w.

(** No path separator and no two spaces in a row. *)
Fixpoint tidy (s : pystr) : bool :=
  match s with
  | [] => true
  | c :: s' =>
      negb (c =? 92)%N && negb (c =? 47)%N
      && match s' with
         | c' :: _ => negb ((c =? 32)%N && (c' =? 32)%N)
         | [] => true
         end
      && tidy s'
  end.

(** What a display name looks like once normalized: words without path
    separators, joined by single spaces. *)
Definition normalized (r : pystr) : Prop :=
  exists ws, Forall word ws /\ r = join (lit " ") ws.

End TextSpec.

Module EmitSpec.
Import Py Models Emit.

(** The key range a layer shows, read back from its dictionary. *)
Definition read_key_range (l : Layer) : option KeyRange.t :=
  match keyRange l with
  | Some k => Some (KeyRange.mk (kr_low k) (kr_high k))
  | None => None
  end.

(** A layer shows the name, transpose and key range of a strip. *)
Definition mirrors (l : Layer) (cs : ChannelStrip.t) : Prop :=
  layer_name l = ChannelStrip.name cs
  /\ layer_transpose l = ChannelStrip.transpose cs
  /\ read_key_range l = ChannelStrip.key_range cs.

(** Every patch of a concert with the set that holds it, in order. *)
Definition patches_with_set (c : Concert.t) : list (Set_.t * Patch.t) :=
  flat_map (fun s => map (pair s) (Set_.patches s)) (Concert.sets c).

Definition all_patches (c : Concert.t) : list Patch.t :=
  flat_map Set_.patches (Concert.sets c).

Definition all_scenes (s : Session) : list Scene :=
  flat_map scenes (songs s).
End EmitSpec.

(* ================================================================== *)
(** * Further predicates and sample inputs *)

Module NameSpec.
Import Py.

(** Text made of white space only. *)
Definition blank (s : pystr) : bool := forallb isspace s.

(** Text that is not empty and has nothing to strip. *)
Definition trimmed (s : pystr) : Prop := s <> [] /\ strip s = s.

Definition trimmed_opt (o : option pystr) : Prop :=
  match o with Some s => trimmed s | None => True end.

End NameSpec.

Module WalkerSpec.
Import Py Parser.

Section Loops.
Context {B : Builtins}.


End Loops.
End WalkerSpec.

Module ModelSpec.
Import Py Parser ParserSpec TextSpec NameSpec.

(** The three kinds of a channel strip. *)
Definition strip_kinds : list pystr :=
  [lit "instrument"; lit "audio"; lit "midi"].

(** The value [infer_strip_kind] reads the type of a strip from. *)
Definition strip_type (d : dict) : value :=
  dict_get d (lit "stripType") |? dict_get d (lit "type") |? VStr [].

(** What the model asks of a plugin, of a channel strip and of a patch. *)
Definition plugin_ok (p : Plugin.t) : Prop :=
  Plugin.name p <> []
  /\ trimmed_opt (Plugin.manufacturer p)
  /\ trimmed_opt (Plugin.kind p)
  /\ trimmed_opt (Plugin.identifier p).

Definition strip_ok (cs : ChannelStrip.t) : Prop :=
  normalized (ChannelStrip.name cs)
  /\ In (ChannelStrip.kind cs) strip_kinds
  /\ (forall kr, ChannelStrip.key_range cs = Some kr -> in_range kr).

Definition patch_ok (p : Patch.t) : Prop :=
  normalized (Patch.name p) /\ Forall strip_ok (Patch.channel_strips p).

End ModelSpec.

Module NoteSpec.
Import Py Models.

(** No two notes of 0..127 have the same name. *)
Definition note_names_differ : bool :=
  let notes := map Z.of_nat (seq 0 128) in
  forallb
    (fun a =>
       forallb
         (fun b =>
            implb (str_eqb (midi_to_note (Some a)) (midi_to_note (Some b)))
                  (Z.eqb a b))
         notes)
    notes.

End NoteSpec.

Module ShapeSpec.
Import Py Parser.

(** The (low, high) pairs of keys [infer_key_range] tries, in order. *)
Definition key_range_aliases : list (pystr * pystr) :=
  [(lit "keyRangeLow", lit "keyRangeHigh"); (lit "keyLow", lit "keyHigh");
   (lit "noteLow", lit "noteHigh"); (lit "lowKey", lit "highKey")].

(** The test of the second loop of [extract_channel_strips] on one field:
    a list whose first element is a dictionary with one of the marker keys. *)
Definition strip_like (v : value) : bool :=
  match v with
  | VList (VDict d0 :: _) => existsb (dict_mem d0) strip_marker_keys
  | _ => false
  end.

(** The first loop of [extract_channel_strips] leaves no candidate: no known
    key holds a list, or the first that does holds the empty list. *)
Definition no_known_strips (d : dict) : Prop :=
  Forall (fun key => is_list (dict_get d key) = false) strip_list_keys
  \/ exists before key after,
       strip_list_keys = before ++ key :: after
       /\ Forall (fun k => is_list (dict_get d k) = false) before
       /\ dict_get d key = VList [].

Section WithBuiltins.
Context {B : Builtins}.

(** The two values under a pair of keys, when both coerce to integers. *)
Definition coerced_pair (d : dict) (p : pystr * pystr) : option (Z * Z) :=
  match coerce_int (dict_get d (fst p)), coerce_int (dict_get d (snd p)) with
  | Some l, Some h => Some (l, h)
  | _, _ => None
  end.

(** A strip the legacy adapter built. *)
Definition legacy_strip (cs : ChannelStrip.t) : Prop :=
  exists ch sub, parse_legacy_channel ch sub = Ok (Some cs).

(** A concert all of whose strips the legacy adapter built. *)
Definition legacy_concert (c : Concert.t) : Prop :=
  Forall (fun s =>
            Forall (fun p => Forall legacy_strip (Patch.channel_strips p))
                   (Set_.patches s))
         (Concert.sets c).

End WithBuiltins.
End ShapeSpec.

Module Samples.
Import Py.

(** A node of class "MSPatch" with one child. *)
Definition patch_with_child : dict :=
  [(lit "class", VStr (lit "MSPatch")); (lit "name", VStr (lit "Lead"));
   (lit "children", VList [VDict []])].

(** A strip whose second pair of bounds does not coerce and whose fourth
    is out of range and reversed. *)
Definition late_alias_strip : dict :=
  [(lit "name", VStr (lit "Pad"));
   (lit "keyLow", VStr (lit "low")); (lit "keyHigh", VInt 5);
   (lit "lowKey", VInt 300); (lit "highKey", VInt (-4))].

(** The strip the legacy adapter builds from [Fixture.legacy_channel [x01]],
    and a concert of one patch made of it twice. *)
Definition legacy_keys : ChannelStrip.t :=
  ChannelStrip.mk (lit "Keys") (lit "instrument") None
    (Some (KeyRange.mk 127 0)) 12 [] [(lit "_legacy", VBool true)].

Definition legacy_rig : Concert.t :=
  Concert.mk (lit "Rig")
    [Set_.mk (lit "Main") [Patch.mk (lit "Keys") [legacy_keys; legacy_keys] []] []]
    [].

(** A node whose first known strip key holds the empty list. *)
Definition empty_then_strips : dict :=
  [(lit "channelStrips", VList []);
   (lit "strips", VList [VDict [(lit "name", VStr (lit "A"))]])].

(** A node whose strips lie under a key that is not a known one. *)
Definition unknown_key_strips : dict :=
  [(lit "tags", VList [VStr (lit "live")]);
   (lit "mixer", VList [VDict [(lit "name", VStr (lit "A"));
                               (lit "stripType", VStr (lit "audio"))]])].

(** A strip with an instrument plugin and an insert. *)
Definition synth_strip : value :=
  VDict [(lit "name", VStr (lit "Synth"));
         (lit "instrument",
          VDict [(lit "name", VStr (lit "Alchemy"));
                 (lit "manufacturer", VStr (lit "Apple"));
                 (lit "type", VStr (lit "aumu"));
                 (lit "identifier", VStr (lit "com.apple.alchemy"))]);
         (lit "inserts", VList [VDict [(lit "name", VStr (lit "Reverb"))]])].


Definition piano_strip : value :=
  VDict [(lit "name", VStr (lit "Piano"));
         (lit "stripType", VStr (lit "instrument"));
         (lit "keyRangeLow", VInt 300); (lit "keyRangeHigh", VInt (-4))].

Definition lead_patch : value :=
  VDict [(lit "class", VStr (lit "Patch"));
         (lit "name", VStr (lit "Lead/Solo"));
         (lit "channelStrips", VList [piano_strip])].

Definition pad_patch : value :=
  VDict [(lit "class", VStr (lit "Patch")); (lit "name", VStr (lit "Pad"))].

(** A set node with two patch children. *)
Definition two_patch_set : dict :=
  [(lit "class", VStr (lit "Set")); (lit "name", VStr (lit "Main"));
   (lit "children", VList [lead_patch; pad_patch])].

(** A document whose patch list lies one dictionary down. *)
Definition nested_document : dict :=
  [(lit "root", VDict [(lit "children", VList [VDict two_patch_set])])].

(** The note object of [Fixture.archive]. *)
Definition note_object : dict :=
  [(lit "lowNote", VInt 200); (lit "highNote", VInt (-5));
   (lit "transpose", VInt 12)].

(** A legacy patch whose engine follows the MIDI tempo. *)
Definition following_engine : dict :=
  [(lit "followMIDITempo", VBool true); (lit "tempo", VInt 120)].

Definition following_patch : dict := [(lit "engineNode", VDict following_engine)].

(** One set of three patches; only the second declares a tempo. *)
Definition three_patch_concert : Concert.t :=
  Concert.mk (lit "Rig")
    [Set_.mk (lit "Main")
       [Patch.mk (lit "Intro") [] [];
        Patch.mk (lit "Verse") [] [(lit "bpm", VInt 120)];
        Patch.mk (lit "Outro") [] []]
       []]
    [].

End Samples.

(* ================================================================== *)
(** * Text: what [split], [join], [strip] and [replace] do to a display name *)

Module TextFacts.
Import Py TextSpec Parser.

Lemma clean_not_space c : clean c -> c <> space.
Proof.
  intros [Hs _] ->. discriminate Hs.
Qed.

Lemma words_shape s :
  Forall (fun c => isspace c = false) (fst (words s))
  /\ Forall (fun w => w <> [] /\ Forall (fun c => isspace c = false) w)
            (snd (words s)).
Proof.
  induction s as [|c s [IHw IHws]]; simpl.
  - split; constructor.
  - destruct (words s) as [w ws]; simpl in *.
    destruct (isspace c) eqn:Hc; simpl.
    + split; [constructor|].
      destruct w as [|x w]; [exact IHws|].
      constructor; [split; [discriminate | exact IHw] | exact IHws].
    + split; [constructor; assumption | exact IHws].
Qed.

Lemma words_keep (P : char -> Prop) s :
  Forall P s ->
  Forall P (fst (words s)) /\ Forall (Forall P) (snd (words s)).
Proof.
  induction 1 as [|c s Hc Hs [IHw IHws]]; simpl.
  - split; constructor.
  - destruct (words s) as [w ws]; simpl in *.
    destruct (isspace c); simpl.
    + split; [constructor|].
      destruct w; [exact IHws | constructor; assumption].
    + split; [constructor; assumption | exact IHws].
Qed.

Lemma split_nonspace s :
  Forall (fun w => w <> [] /\ Forall (fun c => isspace c = false) w) (split s).
Proof.
  unfold split. destruct (words_shape s) as [Hw Hws].
  destruct (words s) as [w ws]; simpl in *.
  destruct w as [|x w]; [exact Hws|].
  constructor; [split; [discriminate | exact Hw] | exact Hws].
Qed.

Lemma split_keep (P : char -> Prop) s :
  Forall P s -> Forall (Forall P) (split s).
Proof.
  intros H. unfold split. destruct (words_keep P s H) as [Hw Hws].
  destruct (words s) as [w ws]; simpl in *.
  destruct w; [exact Hws | constructor; assumption].
Qed.

Lemma split_words (s : pystr) :
  Forall (fun c => c <> backslash /\ c <> 47%N) s -> Forall word (split s).
Proof.
  intros H.
  pose proof (split_nonspace s) as H1.
  pose proof (split_keep _ s H) as H2.
  induction (split s) as [|w ws IH]; constructor.
  - inversion H1 as [| w0 ws0 [Hne Hsp] Hr1]; inversion H2 as [| w1 ws1 Hk Hr2]; subst.
    split; [exact Hne|].
    clear - Hsp Hk. induction w; constructor.
    + inversion Hsp; inversion Hk; subst. unfold clean. tauto.
    + inversion Hsp; inversion Hk; subst. auto.
  - inversion H1; inversion H2; subst. auto.
Qed.

Lemma words_word_app w u :
  Forall (fun c => isspace c = false) w ->
  words (w ++ u) = (w ++ fst (words u), snd (words u)).
Proof.
  induction 1 as [|c w Hc Hw IH]; simpl.
  - destruct (words u); reflexivity.
  - rewrite IH, Hc. reflexivity.
Qed.

Lemma word_nonspace w : word w -> Forall (fun c => isspace c = false) w.
Proof.
  intros [_ H]. induction H as [|c w [Hc _] Hw IH]; constructor; assumption.
Qed.

Lemma split_word w : word w -> split w = [w].
Proof.
  intros Hw. unfold split.
  rewrite <- (app_nil_r w) at 1.
  rewrite words_word_app by (apply word_nonspace; exact Hw).
  simpl. rewrite app_nil_r. destruct Hw as [Hne _].
  destruct w; [contradiction | reflexivity].
Qed.

Lemma split_word_space w r :
  word w -> split (w ++ space :: r) = w :: split r.
Proof.
  intros Hw. unfold split.
  rewrite words_word_app by (apply word_nonspace; exact Hw).
  simpl. destruct (words r) as [w0 ws0]; simpl.
  rewrite app_nil_r. destruct Hw as [Hne _].
  destruct w; [contradiction | reflexivity].
Qed.

Lemma split_join ws :
  Forall word ws -> split (join (lit " ") ws) = ws.
Proof.
  induction 1 as [|w ws Hw Hws IH]; [reflexivity|].
  destruct ws as [|w' ws'].
  - simpl. apply split_word; exact Hw.
  - change (join (lit " ") (w :: w' :: ws'))
      with (w ++ space :: join (lit " ") (w' :: ws')).
    rewrite split_word_space by exact Hw. rewrite IH. reflexivity.
Qed.

(** The joined words begin and end with a clean code point. *)
Lemma join_head ws :
  Forall word ws -> ws <> [] ->
  exists c s, join (lit " ") ws = c :: s /\ clean c.
Proof.
  intros H Hne. destruct H as [|w ws [Hw Hc] Hws]; [contradiction|].
  destruct w as [|c w]; [contradiction|].
  inversion Hc; subst.
  destruct ws; simpl; eauto.
Qed.

Lemma join_last ws :
  Forall word ws -> ws <> [] ->
  exists s c, join (lit " ") ws = s ++ [c] /\ clean c.
Proof.
  induction 1 as [|w ws Hw Hws IH]; intros Hne; [contradiction|].
  destruct ws as [|w' ws'].
  - simpl. destruct Hw as [Hw Hc].
    destruct (exists_last Hw) as [s [c ->]].
    exists s, c. split; [reflexivity|].
    apply Forall_app in Hc. destruct Hc as [_ Hc]. inversion Hc; assumption.
  - destruct IH as [s [c [E Hc]]]; [discriminate|].
    change (join (lit " ") (w :: w' :: ws'))
      with (w ++ space :: join (lit " ") (w' :: ws')).
    rewrite E. exists (w ++ space :: s), c. split; [|exact Hc].
    rewrite <- app_assoc. reflexivity.
Qed.

Lemma strip_join ws :
  Forall word ws -> strip (join (lit " ") ws) = join (lit " ") ws.
Proof.
  intros H. destruct ws as [|w ws]; [reflexivity|].
  destruct (join_head _ H) as [c [s [E [Hc _]]]]; [discriminate|].
  destruct (join_last _ H) as [s' [c' [E' [Hc' _]]]]; [discriminate|].
  unfold strip.
  assert (L : lstrip (join (lit " ") (w :: ws)) = join (lit " ") (w :: ws)).
  { rewrite E. simpl. rewrite Hc. reflexivity. }
  rewrite L. unfold rstrip. rewrite E', rev_app_distr. simpl.
  rewrite Hc'. simpl. rewrite rev_involutive. reflexivity.
Qed.

Lemma tidy_clean_cons c s : clean c -> tidy (c :: s) = tidy s.
Proof.
  intros [Hs [Hb Hf]].
  assert (H32 : (c =? 32)%N = false).
  { apply N.eqb_neq. intros ->. discriminate Hs. }
  apply N.eqb_neq in Hb, Hf. unfold backslash in Hb.
  simpl. rewrite Hb, Hf, H32. simpl. destruct s; reflexivity.
Qed.

Lemma tidy_clean_app w s : Forall clean w -> tidy (w ++ s) = tidy s.
Proof.
  induction 1 as [|c w Hc Hw IH]; [reflexivity|].
  simpl app. rewrite tidy_clean_cons by exact Hc. exact IH.
Qed.

Lemma tidy_tail c s : tidy (c :: s) = true -> tidy s = true.
Proof.
  simpl. intros H. apply andb_prop in H. tauto.
Qed.

Lemma tidy_join ws : Forall word ws -> tidy (join (lit " ") ws) = true.
Proof.
  induction 1 as [|w ws Hw Hws IH]; [reflexivity|].
  destruct ws as [|w' ws'].
  - simpl. rewrite <- (app_nil_r w). rewrite tidy_clean_app; [reflexivity|].
    apply Hw.
  - change (join (lit " ") (w :: w' :: ws'))
      with (w ++ space :: join (lit " ") (w' :: ws')).
    rewrite tidy_clean_app by apply Hw.
    destruct (join_head (w' :: ws') Hws) as [c [s [E Hc]]]; [discriminate|].
    rewrite E in *. 
    assert (H32 : (c =? 32)%N = false).
    { apply N.eqb_neq. exact (clean_not_space c Hc). }
    change (tidy (space :: c :: s))
      with (true && negb ((32 =? 32)%N && (c =? 32)%N) && tidy (c :: s)).
    rewrite H32, IH. reflexivity.
Qed.

Lemma replace_from_0 old new c s :
  replace_from old new 0 (c :: s)
  = if startswith (c :: s) old
    then new ++ replace_from old new (pred (List.length old)) s
    else c :: replace_from old new 0 s.
Proof. reflexivity. Qed.

Lemma replace_absent old new s :
  (forall t, startswith t old = true -> tidy t = false) ->
  tidy s = true -> replace old new s = s.
Proof.
  intros Hold. unfold replace.
  induction s as [|c s IH]; intros Hs; [reflexivity|].
  rewrite replace_from_0. destruct (startswith (c :: s) old) eqn:E.
  - rewrite (Hold _ E) in Hs. discriminate.
  - f_equal. apply IH. exact (tidy_tail c s Hs).
Qed.

Lemma untidy_char c t :
  (c = 92 \/ c = 47)%N -> startswith t [c] = true -> tidy t = false.
Proof.
  intros Hc. destruct t as [|x t]; [discriminate|].
  cbn [startswith]. intros E. apply andb_prop in E. destruct E as [E _].
  apply N.eqb_eq in E. subst x.
  destruct Hc as [-> | ->]; reflexivity.
Qed.

(** Reads the code points off a [startswith ... = true] hypothesis. *)
Ltac prefix_chars E :=
  repeat (apply andb_prop in E;
          let H := fresh "P" in
          destruct E as [H E]; try (apply N.eqb_eq in H; subst)).

Lemma untidy_dash_right t :
  startswith t [space; em_dash; space; space] = true -> tidy t = false.
Proof.
  destruct t as [|c1 [|c2 [|c3 [|c4 t]]]]; cbn [startswith]; intros E;
    prefix_chars E; try discriminate E; reflexivity.
Qed.

Lemma untidy_dash_left t :
  startswith t [space; space; em_dash; space] = true -> tidy t = false.
Proof.
  destruct t as [|c1 [|c2 [|c3 [|c4 t]]]]; cbn [startswith]; intros E;
    prefix_chars E; try discriminate E; reflexivity.
Qed.

Lemma replace_from_keeps (P : char -> Prop) old new s :
  Forall P new -> Forall P s ->
  forall skip, Forall P (replace_from old new skip s).
Proof.
  intros Hnew. induction 1 as [|c s Hc Hs IH]; intros skip.
  - constructor.
  - destruct skip; [|apply IH].
    rewrite replace_from_0. destruct (startswith (c :: s) old).
    + apply Forall_app. split; [exact Hnew | apply IH].
    + constructor; [exact Hc | apply IH].
Qed.

Lemma replace_char_gone c new s :
  Forall (fun x => x <> c) new -> Forall (fun x => x <> c) (replace [c] new s).
Proof.
  intros Hnew. unfold replace. induction s as [|x s IH].
  - constructor.
  - rewrite replace_from_0. cbn [startswith List.length pred].
    rewrite andb_true_r. destruct (N.eqb_spec c x) as [E | E].
    + apply Forall_app. split; [exact Hnew | exact IH].
    + constructor; [congruence | exact IH].
Qed.

Lemma normalize_name_normalized n : normalized (normalize_name (VStr n)).
Proof.
  unfold normalize_name.
  set (s1 := replace [backslash] dash_sep n).
  set (s2 := replace (lit "/") dash_sep s1).
  set (s3 := replace [space; em_dash; space; space] dash_sep s2).
  set (s4 := replace [space; space; em_dash; space] dash_sep s3).
  assert (Hd : Forall (fun c => c <> backslash /\ c <> 47%N) dash_sep).
  { repeat constructor; discriminate. }
  assert (H1 : Forall (fun c => c <> backslash) s1).
  { apply replace_char_gone. repeat constructor; discriminate. }
  assert (H2 : Forall (fun c => c <> backslash /\ c <> 47%N) s2).
  { apply Forall_and.
    - apply replace_from_keeps; [repeat constructor; discriminate | exact H1].
    - apply (replace_char_gone 47%N). repeat constructor; discriminate. }
  assert (H4 : Forall (fun c => c <> backslash /\ c <> 47%N) s4).
  { apply replace_from_keeps; [exact Hd|].
    apply replace_from_keeps; [exact Hd | exact H2]. }
  exists (split s4). split; [apply split_words; exact H4|].
  apply strip_join. apply split_words; exact H4.
Qed.

Lemma normalized_fixed r : normalized r -> normalize_name (VStr r) = r.
Proof.
  intros [ws [Hws ->]]. unfold normalize_name.
  pose proof (tidy_join ws Hws) as T.
  rewrite (replace_absent [backslash]) by
    (try exact T; intros t; apply untidy_char; left; reflexivity).
  rewrite (replace_absent (lit "/")) by
    (try exact T; intros t; apply untidy_char; right; reflexivity).
  rewrite (replace_absent [space; em_dash; space; space]) by
    (try exact T; exact untidy_dash_right).
  rewrite (replace_absent [space; space; em_dash; space]) by
    (try exact T; exact untidy_dash_left).
  rewrite split_join by exact Hws.
  apply strip_join. exact Hws.
Qed.

End TextFacts.

(* ================================================================== *)
(** * The walker and the legacy channels *)

Module ParserFacts.
Import Py TextSpec TextFacts Parser ParserSpec ShapeSpec.

(** C9: normalizing a name that is already normalized gives it back. *)
Theorem normalize_name_idempotent (s : pystr) :
  normalize_name (VStr (normalize_name (VStr s))) = normalize_name (VStr s).
Proof.
  apply normalized_fixed. apply normalize_name_normalized.
Qed.

Section Recursion.
Context {B : Builtins}.

Lemma find_entry_lookup {A} k (absent : A) found d :
  find_entry k absent found d
  = match lookup d k with Some v => found v | None => absent end.
Proof.
  induction d as [|[k' v] d IH]; [reflexivity|].
  simpl. destruct (str_eqb k' k); [reflexivity | exact IH].
Qed.

(** [extract_patches_recursive] as the source writes it, with [node.get]. *)
Lemma extract_patches_recursive_eq node :
  extract_patches_recursive node
  = (k <- classify_node node ;;
     out <- (if is_patch k then p <- extract_patch node ;; Ok [p] else Ok []) ;;
     on_dict node (fun d =>
       let under key :=
         match dict_get d key with
         | VList l => extend_each extract_patches_recursive l
         | _ => Ok []
         end in
       a <- under (lit "children") ;;
       b <- under (lit "_children") ;;
       c <- under (lit "patches") ;;
       Ok (out ++ a ++ b ++ c))).
Proof.
  destruct node; try reflexivity.
  cbn [extract_patches_recursive on_dict].
  rewrite !find_entry_lookup. unfold dict_get.
  destruct (lookup d (lit "children")) as [[]|],
           (lookup d (lit "_children")) as [[]|],
           (lookup d (lit "patches")) as [[]|]; reflexivity.
Qed.

End Recursion.

Section Classification.
Context {B : Builtins}.

Lemma classify_node_dict d cls nm :
  node_class (VDict d) = Ok cls ->
  dict_get d (lit "name") |? dict_get d (lit "Name") |? VStr [] = VStr nm ->
  classify_node (VDict d)
  = Ok (if contains (lit "set") (lower cls) || startswith (lower nm) (lit "set ")
        then KSet
        else if contains (lit "patch") (lower cls) then KPatch
        else if is_list (dict_get d (lit "children")
                         |? dict_get d (lit "_children"))
        then KSet else KUnknown).
Proof.
  intros Hcls Hnm. unfold classify_node. rewrite Hcls.
  cbn [bind on_dict]. rewrite Hnm. cbn [lower_method bind].
  destruct (contains (lit "set") (lower cls)); cbn [orb bind startswith_method].
  - reflexivity.
  - destruct (startswith (lower nm) (lit "set ")); [reflexivity|].
    destruct (contains (lit "patch") (lower cls)); [reflexivity|].
    destruct (is_list _); reflexivity.
Qed.

(** When [node.get("children") or node.get("_children")] is a list: the
    entry "children" is a list with an element, or it is falsy (absent, None,
    empty, zero) and the entry "_children" is a list, empty or not. *)
Lemma children_or_list d :
  is_list (dict_get d (lit "children") |? dict_get d (lit "_children")) = true
  <-> (exists x l, dict_get d (lit "children") = VList (x :: l))
      \/ (truthy (dict_get d (lit "children")) = false
          /\ exists l, dict_get d (lit "_children") = VList l).
Proof.
  unfold por. split.
  - destruct (truthy (dict_get d (lit "children"))) eqn:Ht.
    + destruct (dict_get d (lit "children")) as [| | | | | | | |l|];
        try discriminate.
      destruct l as [|x l]; [discriminate Ht|]. intros _. left. eauto.
    + destruct (dict_get d (lit "_children")) as [| | | | | | | |l|];
        try discriminate.
      intros _. right. eauto.
  - intros [[x [l Hl]] | [Ht [l Hl]]].
    + rewrite Hl. reflexivity.
    + rewrite Ht, Hl. reflexivity.
Qed.

(** C3 (as amended): with a text name, the class string saying "set" comes
    first, then the name starting with "set ", then the class string saying
    "patch", then the test that [children or _children] is a list, which
    holds when "children" is a list with an element, or is falsy while
    "_children" is a list. *)
Theorem classify_node_order d cls nm :
  node_class (VDict d) = Ok cls ->
  dict_get d (lit "name") |? dict_get d (lit "Name") |? VStr [] = VStr nm ->
  (contains (lit "set") (lower cls) = true ->
   classify_node (VDict d) = Ok KSet)
  /\ (startswith (lower nm) (lit "set ") = true ->
      classify_node (VDict d) = Ok KSet)
  /\ (contains (lit "set") (lower cls) = false ->
      startswith (lower nm) (lit "set ") = false ->
      contains (lit "patch") (lower cls) = true ->
      classify_node (VDict d) = Ok KPatch)
  /\ (contains (lit "set") (lower cls) = false ->
      startswith (lower nm) (lit "set ") = false ->
      contains (lit "patch") (lower cls) = false ->
      classify_node (VDict d)
      = Ok (if is_list (dict_get d (lit "children")
                        |? dict_get d (lit "_children"))
            then KSet else KUnknown))
  /\ (is_list (dict_get d (lit "children") |? dict_get d (lit "_children"))
      = true
      <-> (exists x l, dict_get d (lit "children") = VList (x :: l))
          \/ (truthy (dict_get d (lit "children")) = false
              /\ exists l, dict_get d (lit "_children") = VList l)).
Proof.
  intros Hcls Hnm. rewrite (classify_node_dict d cls nm Hcls Hnm).
  split; [|split; [|split; [|split]]].
  - intros ->. reflexivity.
  - intros ->. rewrite orb_true_r. reflexivity.
  - intros -> -> ->. reflexivity.
  - intros -> -> ->. reflexivity.
  - apply children_or_list.
Qed.

End Classification.

Section KeyRanges.
Context {B : Builtins}.

Lemma clamp_note_bounds z : 0 <= clamp_note z <= 127.
Proof. unfold clamp_note. lia. Qed.

Lemma first_range_clamped cs kr :
  first_range cs = Some kr ->
  exists l h, kr = KeyRange.mk (clamp_note l) (clamp_note h).
Proof.
  induction cs as [|[low high] cs IH]; simpl; [discriminate|].
  destruct (coerce_int low) as [l|]; [|exact IH].
  destruct (coerce_int high) as [h|]; [|exact IH].
  intros E. injection E as <-. exists l, h. reflexivity.
Qed.

Lemma clamped_in_range l h : in_range (KeyRange.mk (clamp_note l) (clamp_note h)).
Proof. split; apply clamp_note_bounds. Qed.

Lemma infer_key_range_in_range raw kr :
  infer_key_range raw = Ok (Some kr) -> in_range kr.
Proof.
  destruct raw; try discriminate. cbn [infer_key_range on_dict].
  match goal with
  | |- Ok (first_range ?cs) = _ -> _ =>
      intros E; assert (E' : first_range cs = Some kr)
        by (injection E; intros H; exact H)
  end.
  apply first_range_clamped in E'.
  destruct E' as [l [h ->]]. apply clamped_in_range.
Qed.

Lemma decode_layer_in_range b kr tz :
  decode_layer b = Ok (Some kr, tz) -> in_range kr.
Proof.
  unfold decode_layer.
  destruct (plistlib_loads b) as [layer|]; [|discriminate]. cbn [bind].
  destruct layer; try discriminate. cbn [on_dict bind].
  destruct (iterate _) as [os|]; [|discriminate]. cbn [bind].
  destruct (find is_note_object os) as [[]|]; try discriminate.
  destruct (truthy _); [|discriminate].
  destruct (coerce_int (dict_get d0 (lit "lowNote"))) as [l|]; [|discriminate].
  destruct (coerce_int (dict_get d0 (lit "highNote"))) as [h|]; [|discriminate].
  intros E. injection E as <- _. apply clamped_in_range.
Qed.

Lemma decode_if_bytes_in_range v kr :
  fst (decode_if_bytes v) = Some kr -> in_range kr.
Proof.
  destruct v; try discriminate. cbn [decode_if_bytes].
  destruct (decode_layer b) as [[k tz]|] eqn:E; [|discriminate].
  cbn [fst]. intros ->. exact (decode_layer_in_range _ _ _ E).
Qed.

(** What [parse_legacy_channel] returns on a dictionary. *)
Lemma parse_legacy_channel_dict d sub :
  exists name plugins notes,
    parse_legacy_channel (VDict d) sub
    = Ok (Some (ChannelStrip.mk name (lit "instrument") None
                  (fst (decode_if_bytes (dict_get d (lit "layer"))))
                  (snd (decode_if_bytes (dict_get d (lit "layer"))))
                  plugins notes)).
Proof.
  unfold parse_legacy_channel.
  destruct (decode_if_bytes _) as [kr tz]. cbn [fst snd]. eauto.
Qed.

Lemma parse_legacy_channel_in_range ch sub cs kr :
  parse_legacy_channel ch sub = Ok (Some cs) ->
  ChannelStrip.key_range cs = Some kr -> in_range kr.
Proof.
  destruct ch; try discriminate.
  destruct (parse_legacy_channel_dict d sub) as [n [ps [ns ->]]].
  intros E. injection E as <-. cbn [ChannelStrip.key_range].
  apply decode_if_bytes_in_range.
Qed.

Lemma note_object_truthy t :
  is_note_object (VDict t) = true -> truthy (VDict t) = true.
Proof. destruct t; [discriminate | reflexivity]. Qed.

Lemma decode_if_bytes_note_object b ly os t l h :
  plistlib_loads b = Some (VDict ly) ->
  lookup ly (lit "$objects") = Some (VList os) ->
  find is_note_object os = Some (VDict t) ->
  coerce_int (dict_get t (lit "lowNote")) = Some l ->
  coerce_int (dict_get t (lit "highNote")) = Some h ->
  fst (decode_if_bytes (VBytes b))
  = Some (KeyRange.mk (clamp_note l) (clamp_note h)).
Proof.
  intros Hb Ho Hf Hl Hh. unfold decode_if_bytes, decode_layer.
  rewrite Hb. cbn [bind on_dict]. unfold dict_get_default. rewrite Ho.
  cbn [iterate bind]. rewrite Hf.
  rewrite (note_object_truthy t) by (apply find_some in Hf; apply Hf).
  rewrite Hl, Hh. reflexivity.
Qed.

Lemma find_map_none {A} (p : value -> bool) (f : A -> value) l :
  (forall a, p (f a) = false) -> find p (map f l) = None.
Proof.
  intros H. induction l as [|a l IH]; [reflexivity|].
  simpl. rewrite H. exact IH.
Qed.

Lemma find_forallb_none (p : value -> bool) l :
  forallb (fun o => negb (p o)) l = true -> find p l = None.
Proof.
  induction l as [|a l IH]; [reflexivity|].
  simpl. intros H. apply andb_prop in H. destruct H as [Ha Hl].
  destruct (p a); [discriminate | auto].
Qed.

Lemma decode_failure_default b :
  decode_failure b -> decode_if_bytes (VBytes b) = (None, 0).
Proof.
  intros [Hb | layer Hb Ho | layer os Hb Ho Hn];
    unfold decode_if_bytes, decode_layer; rewrite Hb; [reflexivity| |].
  - cbn [bind]. destruct layer as [| | | | | | | | |ly]; try reflexivity.
    cbn [on_dict bind objects_of] in *. unfold dict_get_default.
    destruct (lookup ly (lit "$objects")) as [v|]; [|reflexivity].
    destruct v as [| | | |s|bs| | |l|dv]; try reflexivity; try discriminate;
      cbn [iterate bind]; rewrite find_map_none; reflexivity.
  - cbn [bind]. destruct layer as [| | | | | | | | |ly]; try discriminate.
    cbn [on_dict bind objects_of] in *. unfold dict_get_default.
    destruct (lookup ly (lit "$objects")) as [v|]; [|discriminate].
    destruct v; try discriminate. injection Ho as ->.
    cbn [iterate bind]. rewrite (find_forallb_none _ _ Hn). reflexivity.
Qed.

Lemma first_range_skip d before rest :
  Forall (fun q => coerced_pair d q = None) before ->
  first_range (map (fun p => (dict_get d (fst p), dict_get d (snd p)))
                   (before ++ rest))
  = first_range (map (fun p => (dict_get d (fst p), dict_get d (snd p))) rest).
Proof.
  induction 1 as [|q before Hq _ IH]; [reflexivity|].
  cbn [app map first_range]. unfold coerced_pair in Hq.
  destruct (coerce_int (dict_get d (fst q))); [|exact IH].
  destruct (coerce_int (dict_get d (snd q))); [discriminate | exact IH].
Qed.

(** [infer_key_range] goes through the four pairs of keys in order. *)
Lemma infer_key_range_aliases d :
  infer_key_range (VDict d)
  = Ok (first_range (map (fun p => (dict_get d (fst p), dict_get d (snd p)))
                         key_range_aliases)).
Proof. reflexivity. Qed.

Lemma infer_key_range_pair d before p after l h :
  key_range_aliases = before ++ p :: after ->
  Forall (fun q => coerced_pair d q = None) before ->
  coerced_pair d p = Some (l, h) ->
  infer_key_range (VDict d)
  = Ok (Some (KeyRange.mk (clamp_note l) (clamp_note h))).
Proof.
  intros E Hb Hp. rewrite infer_key_range_aliases, E, first_range_skip by exact Hb.
  cbn [map first_range]. unfold coerced_pair in Hp.
  destruct (coerce_int (dict_get d (fst p))) as [l'|]; [|discriminate].
  destruct (coerce_int (dict_get d (snd p))) as [h'|]; [|discriminate].
  injection Hp as -> ->. reflexivity.
Qed.

Lemma infer_key_range_none d :
  Forall (fun q => coerced_pair d q = None) key_range_aliases ->
  infer_key_range (VDict d) = Ok None.
Proof.
  intros H. rewrite infer_key_range_aliases.
  rewrite <- (app_nil_r key_range_aliases), first_range_skip by exact H.
  reflexivity.
Qed.

(** C5: a key range built from a strip or from an embedded archive lies in
    0..127 on both sides.  On a strip, the first of the four pairs of keys
    whose two values coerce to integers gives the range, each bound clamped
    on its own, whatever their size and order; with no such pair there is no
    range; nothing raises.  In an archive, the first object with a low and a
    high note gives the range the same way, and a legacy channel that is a
    dictionary always gives a strip. *)
Theorem key_range_clamped_never_rejected :
  (forall raw kr, infer_key_range raw = Ok (Some kr) -> in_range kr)
  /\ (forall ch sub cs kr,
        parse_legacy_channel ch sub = Ok (Some cs) ->
        ChannelStrip.key_range cs = Some kr -> in_range kr)
  /\ (forall d, exists r, infer_key_range (VDict d) = Ok r)
  /\ (forall d before p after l h,
        key_range_aliases = before ++ p :: after ->
        Forall (fun q => coerced_pair d q = None) before ->
        coerced_pair d p = Some (l, h) ->
        infer_key_range (VDict d)
        = Ok (Some (KeyRange.mk (clamp_note l) (clamp_note h))))
  /\ (forall d,
        Forall (fun q => coerced_pair d q = None) key_range_aliases ->
        infer_key_range (VDict d) = Ok None)
  /\ (forall d sub, exists cs, parse_legacy_channel (VDict d) sub = Ok (Some cs))
  /\ (forall d sub b ly os t l h,
        dict_get d (lit "layer") = VBytes b ->
        plistlib_loads b = Some (VDict ly) ->
        lookup ly (lit "$objects") = Some (VList os) ->
        find is_note_object os = Some (VDict t) ->
        coerce_int (dict_get t (lit "lowNote")) = Some l ->
        coerce_int (dict_get t (lit "highNote")) = Some h ->
        exists cs,
          parse_legacy_channel (VDict d) sub = Ok (Some cs)
          /\ ChannelStrip.key_range cs
             = Some (KeyRange.mk (clamp_note l) (clamp_note h))).
Proof.
  split; [exact infer_key_range_in_range|].
  split; [exact parse_legacy_channel_in_range|].
  split; [intros d; eexists; reflexivity|].
  split; [exact infer_key_range_pair|].
  split; [exact infer_key_range_none|].
  split.
  { intros d sub. destruct (parse_legacy_channel_dict d sub) as [n [ps [ns E]]].
    eexists. exact E. }
  intros d sub b ly os t l h Hd Hb Ho Hf Hl Hh.
  destruct (parse_legacy_channel_dict d sub) as [n [ps [ns E]]].
  eexists. split; [exact E|]. cbn [ChannelStrip.key_range].
  rewrite Hd. exact (decode_if_bytes_note_object b ly os t l h Hb Ho Hf Hl Hh).
Qed.

(** C8: when the embedded payload of a legacy channel does not decode to a
    note object, the channel still parses, with no key range and a transpose
    of 0. *)
Theorem legacy_decode_failure_degrades d sub b :
  dict_get d (lit "layer") = VBytes b ->
  decode_failure b ->
  exists cs,
    parse_legacy_channel (VDict d) sub = Ok (Some cs)
    /\ ChannelStrip.key_range cs = None
    /\ ChannelStrip.transpose cs = 0.
Proof.
  intros Hd Hf.
  destruct (parse_legacy_channel_dict d sub) as [n [ps [ns E]]].
  eexists. split; [exact E|].
  cbn [ChannelStrip.key_range ChannelStrip.transpose].
  rewrite Hd, (decode_failure_default b Hf). split; reflexivity.
Qed.

Lemma parse_legacy_channel_kind ch sub cs :
  parse_legacy_channel ch sub = Ok (Some cs) ->
  ChannelStrip.kind cs = lit "instrument"
  /\ ChannelStrip.midi_channel cs = None.
Proof.
  destruct ch; try discriminate.
  destruct (parse_legacy_channel_dict d sub) as [n [ps [ns ->]]].
  intros E. injection E as <-. split; reflexivity.
Qed.

End KeyRanges.

Section Failures.
Context {B : Builtins}.

(** C7 (the input on which the code leaves the claim): a patch node named
    by a single space yields a patch with the empty name. *)
Theorem extract_patch_blank_name :
  classify_node Fixture.blank_patch = Ok KPatch
  /\ extract_patch Fixture.blank_patch
     = Ok (Patch.mk [] [] [(lit "_sourceClass", VStr (lit "Patch"))]).
Proof. split; reflexivity. Qed.

(** C1 (the inputs on which the code leaves the claim): a strip whose type
    is a number, a node whose name is a number, and a text where a node is
    expected, each make the extraction raise. *)
Theorem extract_sets_and_patches_raises :
  extract_sets_and_patches Fixture.numeric_strip_type = Raise AttributeError
  /\ extract_sets_and_patches Fixture.numeric_name = Raise AttributeError
  /\ extract_sets_and_patches Fixture.text_child = Raise AttributeError.
Proof. repeat split. Qed.

End Failures.

(** Bounds 300 and -4 on a strip, under the first pair of keys or under the
    fourth when the second does not coerce, and 200 and -5 in an archive: all
    give the key range 127..0; a strip with no bounds gives none. *)
Lemma key_range_clamped_never_rejected_witness :
  @infer_key_range Fixture.builtins (VDict Fixture.reversed_strip)
  = Ok (Some (KeyRange.mk 127 0))
  /\ @infer_key_range Fixture.builtins (VDict Samples.late_alias_strip)
     = Ok (Some (KeyRange.mk 127 0))
  /\ @infer_key_range Fixture.builtins (VDict [(lit "keyLow", VInt 3)])
     = Ok None
  /\ in_range (KeyRange.mk 127 0)
  /\ exists cs,
       @parse_legacy_channel Fixture.builtins
         (VDict (Fixture.legacy_channel [x01])) None = Ok (Some cs)
       /\ ChannelStrip.key_range cs = Some (KeyRange.mk 127 0).
Proof.
  destruct (@key_range_clamped_never_rejected Fixture.builtins)
    as [H1 [_ [_ [H4 [H5 [_ H7]]]]]].
  assert (E : @infer_key_range Fixture.builtins (VDict Fixture.reversed_strip)
              = Ok (Some (KeyRange.mk 127 0))).
  { apply (H4 Fixture.reversed_strip [] (lit "keyRangeLow", lit "keyRangeHigh")
              (tl key_range_aliases) 300 (-4));
      [reflexivity | constructor | reflexivity]. }
  split; [exact E|]. split.
  { apply (H4 Samples.late_alias_strip (firstn 3 key_range_aliases)
              (lit "lowKey", lit "highKey") [] 300 (-4));
      [reflexivity | repeat constructor | reflexivity]. }
  split; [apply H5; repeat constructor|].
  split; [exact (H1 _ _ E)|].
  eapply (H7 (Fixture.legacy_channel [x01]) None [x01]) with (l := 200) (h := -5);
    reflexivity.
Defined.

(** A payload that does not decode. *)
Lemma legacy_decode_failure_degrades_witness :
  exists cs,
    @parse_legacy_channel Fixture.builtins
      (VDict (Fixture.legacy_channel [x00])) None = Ok (Some cs)
    /\ ChannelStrip.key_range cs = None
    /\ ChannelStrip.transpose cs = 0.
Proof.
  apply (@legacy_decode_failure_degrades Fixture.builtins _ None [x00]).
  - reflexivity.
  - apply malformed. reflexivity.
Defined.

(** A node of class "Patch" named "Set 1 Intro" is classified as a set,
    whatever the interpreter. *)
Lemma patch_class_set_name_any (B : Builtins) :
  node_class Fixture.patch_named_like_a_set = Ok (lit "Patch")
  /\ contains (lit "patch") (lower (lit "Patch")) = true
  /\ classify_node Fixture.patch_named_like_a_set = Ok KSet.
Proof. repeat split. Qed.

(** C3 as stated fails: the class string contains "patch" and the node is
    classified "set" because of its name. *)
Lemma classify_patch_class_set_name :
  @node_class Fixture.builtins Fixture.patch_named_like_a_set = Ok (lit "Patch")
  /\ contains (lit "patch") (@lower Fixture.builtins (lit "Patch")) = true
  /\ @classify_node Fixture.builtins Fixture.patch_named_like_a_set = Ok KSet.
Proof. exact (patch_class_set_name_any Fixture.builtins). Qed.

(** A node of class "MSPatch" named "Lead" with one child passes the test of
    the children list, and is a patch all the same. *)
Lemma classify_node_order_witness :
  is_list (dict_get Samples.patch_with_child (lit "children")
           |? dict_get Samples.patch_with_child (lit "_children")) = true
  /\ @classify_node Fixture.builtins (VDict Samples.patch_with_child)
     = Ok KPatch.
Proof.
  destruct (@classify_node_order Fixture.builtins Samples.patch_with_child
              (lit "MSPatch") (lit "Lead") eq_refl eq_refl)
    as [_ [_ [H3 [_ H5]]]].
  split.
  - apply (proj2 H5). left. exists (VDict []), []. reflexivity.
  - apply H3; reflexivity.
Defined.

End ParserFacts.

(* ================================================================== *)
(** * The session mapper *)

Module EmitFacts.
Import Py Parser ParserSpec ShapeSpec Models Emit EmitSpec ParserFacts.

Lemma str_eqb_eq a b : str_eqb a b = true <-> a = b.
Proof.
  revert b. induction a as [|x a IH]; intros [|y b]; simpl;
    try (split; [discriminate | discriminate]); [tauto|].
  rewrite andb_true_iff, N.eqb_eq, IH. split.
  - intros [-> ->]. reflexivity.
  - intros E. injection E as -> ->. auto.
Qed.

Lemma is_instrument_kind cs :
  is_instrument cs = true <-> ChannelStrip.kind cs = lit "instrument".
Proof. apply str_eqb_eq. Qed.

Lemma layer_from_strip_mirrors cs : mirrors (layer_from_strip cs) cs.
Proof.
  unfold mirrors, read_key_range. cbn.
  repeat split. destruct (ChannelStrip.key_range cs) as [[l h]|]; reflexivity.
Qed.

Lemma Forall2_map_self {A B} (R : B -> A -> Prop) (f : A -> B) l :
  (forall a, R (f a) a) -> Forall2 R (map f l) l.
Proof.
  intros H. induction l; constructor; auto.
Qed.

Lemma flat_map_map_inner {A B C} (f : B -> C) (g : A -> list B) l :
  flat_map (fun a => map f (g a)) l = map f (flat_map g l).
Proof.
  induction l as [|a l IH]; [reflexivity|].
  simpl. rewrite map_app, IH. reflexivity.
Qed.

Lemma flat_map_twice {A B C} (f : B -> list C) (g : A -> list B) l :
  flat_map f (flat_map g l) = flat_map (fun a => flat_map f (g a)) l.
Proof.
  induction l as [|a l IH]; [reflexivity|].
  simpl. rewrite flat_map_app, IH. reflexivity.
Qed.

Lemma scenes_of_patch_songs s ps :
  flat_map scenes (map (song_of_patch s) ps)
  = map (fun p => scene_from_patch p true) ps.
Proof.
  induction ps as [|p ps IH]; [reflexivity|].
  simpl. rewrite IH. reflexivity.
Qed.

(** In either mode the scenes of the session are the patches of the concert,
    one for one and in order. *)
Lemma all_scenes_of_session now c flat path :
  all_scenes (build_camelot_session now c flat path)
  = map (fun p => scene_from_patch p flat) (all_patches c).
Proof.
  unfold all_scenes, all_patches, build_camelot_session. cbn [songs].
  destruct flat.
  - rewrite flat_map_twice. rewrite <- flat_map_map_inner.
    apply flat_map_ext. intros s. apply scenes_of_patch_songs.
  - rewrite <- flat_map_map_inner. rewrite flat_map_concat_map, map_map.
    rewrite <- flat_map_concat_map. reflexivity.
Qed.

(** C2: in both modes every scene has one layer per instrument strip of its
    patch, in the order of the strips, showing that strip's name, transpose
    and key range; no other strip gives a layer. *)
Theorem layers_mirror_instrument_strips now c flat path :
  (forall cs, is_instrument cs = true
              <-> ChannelStrip.kind cs = lit "instrument")
  /\ Forall2
       (fun scene p =>
          scene_name scene = Patch.name p
          /\ Forall2 mirrors (layers scene)
               (filter is_instrument (Patch.channel_strips p)))
       (all_scenes (build_camelot_session now c flat path))
       (all_patches c).
Proof.
  split; [exact is_instrument_kind|].
  rewrite all_scenes_of_session.
  apply Forall2_map_self. intros p. split; [reflexivity|].
  cbn [layers scene_from_patch].
  apply Forall2_map_self. exact layer_from_strip_mirrors.
Qed.

Lemma Forall2_flat_map {A B C} (R : B -> C -> Prop)
    (f : A -> list B) (g : A -> list C) l :
  (forall a, Forall2 R (f a) (g a)) ->
  Forall2 R (flat_map f l) (flat_map g l).
Proof.
  intros H. induction l as [|a l IH]; [constructor|].
  simpl. apply Forall2_app; auto.
Qed.

Lemma Forall2_map_both {A B C} (R : B -> C -> Prop)
    (f : A -> B) (g : A -> C) l :
  (forall a, R (f a) (g a)) -> Forall2 R (map f l) (map g l).
Proof.
  intros H. induction l; constructor; auto.
Qed.

Lemma song_of_patch_metadata s p :
  dict_get (song_metadata (song_of_patch s p)) (lit "_fromSet")
  = VStr (Set_.name s)
  /\ dict_get (song_metadata (song_of_patch s p)) (lit "bpm")
     = dict_get (Patch.attributes p) (lit "bpm").
Proof.
  unfold song_of_patch, has_bpm. cbn [song_metadata].
  destruct (dict_get (Patch.attributes p) (lit "bpm")); split; reflexivity.
Qed.

(** C4: in flattened mode the songs are the patches of all the sets, one for
    one and in order; each song has the one scene of its patch, records the
    name of the set it came from under [_fromSet], and carries the tempo of
    the patch, when it has one, in its own metadata. *)
Theorem flattened_one_song_per_patch now c path :
  Forall2
    (fun song sp =>
       song_name song = Patch.name (snd sp)
       /\ scenes song = [scene_from_patch (snd sp) true]
       /\ dict_get (song_metadata song) (lit "_fromSet")
          = VStr (Set_.name (fst sp))
       /\ dict_get (song_metadata song) (lit "bpm")
          = dict_get (Patch.attributes (snd sp)) (lit "bpm"))
    (songs (build_camelot_session now c true path))
    (patches_with_set c)
  /\ forall s p1 p2,
       Concert.sets c = [s] -> Set_.patches s = [p1; p2] ->
       exists song1 song2 scene1 scene2,
         songs (build_camelot_session now c true path) = [song1; song2]
         /\ scenes song1 = [scene1] /\ scenes song2 = [scene2].
Proof.
  split.
  - unfold patches_with_set. cbn [songs build_camelot_session].
    apply Forall2_flat_map. intros s.
    apply Forall2_map_both. intros p. cbn [fst snd].
    destruct (song_of_patch_metadata s p) as [H1 H2].
    repeat split; assumption.
  - intros s p1 p2 Hs Hp. cbn [songs build_camelot_session].
    rewrite Hs. cbn [flat_map]. rewrite Hp. cbn [map app].
    do 4 eexists. repeat split.
Qed.

(** C6 (as amended): but for the two time stamps, the session is fixed by
    the concert, the mode and the source path; the time stamps are the clock
    reading. *)
Theorem session_fixed_but_for_clock now1 now2 c flat path :
  let a := build_camelot_session now1 c flat path in
  let b := build_camelot_session now2 c flat path in
  version a = version b
  /\ session_name a = session_name b
  /\ source_type (session_source a) = source_type (session_source b)
  /\ Emit.path (session_source a) = Emit.path (session_source b)
  /\ songs a = songs b
  /\ session_metadata a = session_metadata b
  /\ createdAt a = now1 /\ extractedAt (session_source a) = now1
  /\ createdAt b = now2 /\ extractedAt (session_source b) = now2.
Proof. cbn. repeat split. Qed.

(** C6 as stated fails: the same arguments at two clock readings give two
    different sessions. *)
Lemma sessions_differ_by_clock :
  build_camelot_session (lit "2026-01-01T20:00:00") Fixture.empty_concert false (lit "Rig.concert")
  <> build_camelot_session (lit "2026-01-01T20:00:01") Fixture.empty_concert false (lit "Rig.concert").
Proof. discriminate. Qed.

Section Legacy.
Context {B : Builtins}.

Lemma filter_all {A} (p : A -> bool) l :
  Forall (fun a => p a = true) l -> filter p l = l.
Proof.
  induction 1 as [|a l Ha Hl IH]; [reflexivity|].
  simpl. rewrite Ha, IH. reflexivity.
Qed.

Lemma Forall2_map_in {A C} (R : C -> A -> Prop) (f : A -> C) l :
  (forall a, In a l -> R (f a) a) -> Forall2 R (map f l) l.
Proof.
  induction l as [|a l IH]; intros H; constructor.
  - apply H. left. reflexivity.
  - apply IH. intros b Hb. apply H. right. exact Hb.
Qed.

(** Every strip the loop over the channels of a legacy patch collects was
    built by [parse_legacy_channel]. *)
Lemma legacy_strips_built channels sub :
  forall strips,
    legacy_strips channels sub = Ok strips -> Forall legacy_strip strips.
Proof.
  induction channels as [|ch channels IH]; intros strips; cbn [legacy_strips].
  - intros E. injection E as <-. constructor.
  - destruct (parse_legacy_channel ch sub) as [o|] eqn:Ech; [|discriminate].
    cbn [bind]. destruct (legacy_strips channels sub) as [rest|]; [|discriminate].
    cbn [bind]. intros E. injection E as <-.
    specialize (IH rest eq_refl). destruct o as [cs|]; [|exact IH].
    constructor; [|exact IH]. exists ch, sub. exact Ech.
Qed.

Lemma legacy_concert_patches c p :
  legacy_concert c -> In p (all_patches c) ->
  Forall legacy_strip (Patch.channel_strips p).
Proof.
  unfold legacy_concert, all_patches. intros H Hp.
  apply in_flat_map in Hp. destruct Hp as [s [Hs Hp]].
  rewrite Forall_forall in H. specialize (H s Hs).
  rewrite Forall_forall in H. exact (H p Hp).
Qed.

(** C10: a legacy channel that parses is an instrument strip with no MIDI
    channel; the strips collected for a legacy patch are all such; and in the
    session mapped from a concert made of such strips, in either mode, the
    scenes are the patches in order, and the layers of each scene are the
    strips of its patch in order, one layer per strip, none left out, each
    showing the name, transpose, key range and notes of its strip and no
    MIDI channel. *)
Theorem legacy_strips_all_become_layers :
  (forall ch sub cs,
     parse_legacy_channel ch sub = Ok (Some cs) ->
     ChannelStrip.kind cs = lit "instrument"
     /\ ChannelStrip.midi_channel cs = None)
  /\ (forall channels sub strips,
        legacy_strips channels sub = Ok strips ->
        Forall legacy_strip strips)
  /\ (forall now c flat path,
        legacy_concert c ->
        Forall2
          (fun scene p =>
             scene_name scene = Patch.name p
             /\ Forall2 (fun l cs =>
                           mirrors l cs
                           /\ midiChannel l = None
                           /\ layer_metadata l = ChannelStrip.notes cs)
                        (layers scene) (Patch.channel_strips p))
          (all_scenes (build_camelot_session now c flat path))
          (all_patches c)).
Proof.
  split; [exact parse_legacy_channel_kind|].
  split; [exact legacy_strips_built|].
  intros now c flat path Hc. rewrite all_scenes_of_session.
  apply Forall2_map_in. intros p Hp. split; [reflexivity|].
  pose proof (legacy_concert_patches c p Hc Hp) as Hs.
  cbn [layers scene_from_patch].
  rewrite filter_all.
  - apply Forall2_map_in. intros cs Hcs. split; [|split].
    + apply layer_from_strip_mirrors.
    + rewrite Forall_forall in Hs. destruct (Hs cs Hcs) as [ch [sub E]].
      cbn [midiChannel layer_from_strip].
      apply (parse_legacy_channel_kind ch sub cs E).
    + reflexivity.
  - apply Forall_forall. intros cs Hcs. rewrite Forall_forall in Hs.
    destruct (Hs cs Hcs) as [ch [sub E]]. apply is_instrument_kind.
    apply (parse_legacy_channel_kind ch sub cs E).
Qed.

End Legacy.

(** One set of two patches gives two songs of one scene each. *)
Lemma flattened_one_song_per_patch_witness :
  exists song1 song2 scene1 scene2,
    songs (build_camelot_session (lit "2026-01-01T20:00:00")
             Fixture.two_patch_concert true (lit "Rig.concert"))
    = [song1; song2]
    /\ scenes song1 = [scene1] /\ scenes song2 = [scene2].
Proof.
  eapply (proj2 (flattened_one_song_per_patch (lit "2026-01-01T20:00:00")
                   Fixture.two_patch_concert (lit "Rig.concert")));
    reflexivity.
Defined.

(** Three channels, one of them not a dictionary: two strips, and in the
    session of the concert made of them a scene of two layers. *)
Lemma legacy_strips_all_become_layers_witness :
  @legacy_strips Fixture.builtins
    [VDict (Fixture.legacy_channel [x01]); VInt 3;
     VDict (Fixture.legacy_channel [x01])] None
  = Ok [Samples.legacy_keys; Samples.legacy_keys]
  /\ Forall2
       (fun scene p =>
          scene_name scene = Patch.name p
          /\ Forall2 (fun l cs =>
                        mirrors l cs
                        /\ midiChannel l = None
                        /\ layer_metadata l = ChannelStrip.notes cs)
                     (layers scene) (Patch.channel_strips p))
       (all_scenes (build_camelot_session (lit "2026-01-01T20:00:00")
                      Samples.legacy_rig false (lit "Rig.concert")))
       (all_patches Samples.legacy_rig).
Proof.
  destruct (@legacy_strips_all_become_layers Fixture.builtins) as [_ [H2 H3]].
  split; [reflexivity|].
  apply H3. constructor; [|constructor]. constructor; [|constructor].
  exact (H2 [VDict (Fixture.legacy_channel [x01]); VInt 3;
             VDict (Fixture.legacy_channel [x01])] None
            [Samples.legacy_keys; Samples.legacy_keys] eq_refl).
Defined.

End EmitFacts.

(* ================================================================== *)
(** * More on display names *)

Module TextMore.
Import Py TextSpec TextFacts Parser ParserSpec NameSpec.


(** ** [strip] *)

Lemma lstrip_app_word l c m :
  isspace c = false ->
  lstrip (l ++ c :: m) = lstrip l ++ c :: m \/ lstrip (l ++ c :: m) = c :: m.
Proof.
  intros Hc. induction l as [|x l IH]; simpl.
  - rewrite Hc. right. reflexivity.
  - destruct (isspace x); [exact IH | left; reflexivity].
Qed.

Lemma rstrip_head c t :
  isspace c = false -> exists t', rstrip (c :: t) = c :: t'.
Proof.
  intros Hc. unfold rstrip. simpl rev.
  destruct (lstrip_app_word (rev t) c [] Hc) as [E | E]; rewrite E.
  - rewrite rev_app_distr. simpl. eauto.
  - simpl. eauto.
Qed.

Lemma lstrip_shape s :
  lstrip s = [] \/ exists c t, lstrip s = c :: t /\ isspace c = false.
Proof.
  induction s as [|x s IH]; simpl; [left; reflexivity|].
  destruct (isspace x) eqn:E; [exact IH|]. right. eauto.
Qed.

Lemma lstrip_idempotent s : lstrip (lstrip s) = lstrip s.
Proof.
  destruct (lstrip_shape s) as [-> | [c [t [-> Hc]]]]; [reflexivity|].
  simpl. rewrite Hc. reflexivity.
Qed.

Lemma strip_idempotent s : strip (strip s) = strip s.
Proof.
  unfold strip.
  assert (L : forall a, lstrip (rstrip (lstrip a)) = rstrip (lstrip a)).
  { intros a. destruct (lstrip_shape a) as [-> | [c [t [-> Hc]]]];
      [reflexivity|].
    destruct (rstrip_head c t Hc) as [t' ->]. simpl. rewrite Hc. reflexivity. }
  rewrite L. unfold rstrip. rewrite rev_involutive, lstrip_idempotent.
  reflexivity.
Qed.

(** ** Text made of white space only *)

Lemma words_blank s : blank s = true -> words s = ([], []).
Proof.
  induction s as [|c s IH]; [reflexivity|].
  simpl. intros H. apply andb_prop in H. destruct H as [Hc Hs].
  rewrite (IH Hs), Hc. reflexivity.
Qed.

Lemma words_nil_blank s : words s = ([], []) -> blank s = true.
Proof.
  induction s as [|c s IH]; [reflexivity|].
  simpl. destruct (words s) as [w ws]. destruct (isspace c) eqn:Hc.
  - destruct w; [|discriminate]. intros E. injection E as ->.
    simpl. apply IH. reflexivity.
  - discriminate.
Qed.

Lemma split_nil_blank s : split s = [] <-> blank s = true.
Proof.
  split.
  - unfold split. intros H. apply words_nil_blank.
    destruct (words s) as [w ws]. destruct w; [subst; reflexivity | discriminate].
  - intros H. unfold split. rewrite (words_blank s H). reflexivity.
Qed.

Lemma blank_tail c s : blank (c :: s) = true -> blank s = true.
Proof. simpl. intros H. apply andb_prop in H. tauto. Qed.

Lemma startswith_blank t old :
  startswith t old = true -> blank t = true -> blank old = true.
Proof.
  revert t. induction old as [|x old IH]; intros t; [reflexivity|].
  destruct t as [|y t]; [discriminate|]. cbn [startswith].
  intros E B. apply andb_prop in E. destruct E as [E1 E2].
  apply N.eqb_eq in E1. subst y. simpl in *.
  apply andb_prop in B. destruct B as [B1 B2].
  rewrite B1. exact (IH t E2 B2).
Qed.

Lemma replace_blank old new s :
  blank old = false -> blank s = true -> replace old new s = s.
Proof.
  intros Hold. unfold replace. induction s as [|c s IH]; intros Hs;
    [reflexivity|].
  rewrite replace_from_0. destruct (startswith (c :: s) old) eqn:E.
  - rewrite (startswith_blank _ _ E Hs) in Hold. discriminate.
  - f_equal. apply IH. exact (blank_tail c s Hs).
Qed.

Lemma blank_app a b : blank (a ++ b) = blank a && blank b.
Proof. apply forallb_app. Qed.

Lemma replace_to_blank old new s :
  blank new = false -> blank (replace old new s) = true ->
  replace old new s = s.
Proof.
  intros Hnew. unfold replace. induction s as [|c s IH]; [reflexivity|].
  rewrite replace_from_0. destruct (startswith (c :: s) old).
  - rewrite blank_app, Hnew. discriminate.
  - intros H. f_equal. apply IH. exact (blank_tail _ _ H).
Qed.

Lemma join_nil ws : Forall word ws -> join (lit " ") ws = [] -> ws = [].
Proof.
  intros H E. destruct ws as [|w ws]; [reflexivity|].
  destruct (join_head (w :: ws) H) as [c [t [E' _]]]; [discriminate|].
  rewrite E in E'. discriminate.
Qed.

Lemma separators_replaced n :
  Forall (fun c => c <> backslash /\ c <> 47%N)
    (replace [space; space; em_dash; space] dash_sep
       (replace [space; em_dash; space; space] dash_sep
          (replace (lit "/") dash_sep (replace [backslash] dash_sep n)))).
Proof.
  assert (Hd : Forall (fun c => c <> backslash /\ c <> 47%N) dash_sep)
    by (repeat constructor; discriminate).
  apply replace_from_keeps; [exact Hd|].
  apply replace_from_keeps; [exact Hd|].
  apply Forall_and.
  - apply replace_from_keeps; [repeat constructor; discriminate|].
    apply replace_char_gone. repeat constructor; discriminate.
  - apply (replace_char_gone 47%N). repeat constructor; discriminate.
Qed.

Lemma normalize_name_text_shape n :
  exists s4,
    normalize_name (VStr n) = join (lit " ") (split s4)
    /\ Forall word (split s4)
    /\ s4 = replace [space; space; em_dash; space] dash_sep
              (replace [space; em_dash; space; space] dash_sep
                 (replace (lit "/") dash_sep
                    (replace [backslash] dash_sep n))).
Proof.
  eexists. split; [|split; [|reflexivity]].
  - unfold normalize_name. apply strip_join.
    apply split_words. apply separators_replaced.
  - apply split_words. apply separators_replaced.
Qed.

Lemma normalize_name_nil_blank (n : pystr) :
  normalize_name (VStr n) = [] <-> blank n = true.
Proof.
  destruct (normalize_name_text_shape n) as [s4 [E [Hw Es]]].
  rewrite E. split.
  - intros H. apply join_nil in H; [|exact Hw].
    apply split_nil_blank in H. rewrite Es in H.
    rewrite (replace_to_blank _ dash_sep _ eq_refl H) in H.
    rewrite (replace_to_blank _ dash_sep _ eq_refl H) in H.
    rewrite (replace_to_blank _ dash_sep _ eq_refl H) in H.
    rewrite (replace_to_blank _ dash_sep _ eq_refl H) in H.
    exact H.
  - intros H. rewrite Es.
    rewrite (replace_blank [backslash]) by (reflexivity || exact H).
    rewrite (replace_blank (lit "/")) by (reflexivity || exact H).
    rewrite (replace_blank [space; em_dash; space; space])
      by (reflexivity || exact H).
    rewrite (replace_blank [space; space; em_dash; space])
      by (reflexivity || exact H).
    apply split_nil_blank in H. rewrite H. reflexivity.
Qed.

(** ** The shape of a normalized name *)

Lemma tidy_cons c r :
  tidy (c :: r) = true ->
  c <> backslash /\ c <> 47%N
  /\ match r with
     | c' :: _ => (c =? space)%N && (c' =? space)%N = false
     | [] => True
     end
  /\ tidy r = true.
Proof.
  change (tidy (c :: r))
    with (negb (c =? 92)%N && negb (c =? 47)%N
          && match r with
             | c' :: _ => negb ((c =? 32)%N && (c' =? 32)%N)
             | [] => true
             end
          && tidy r).
  rewrite !andb_true_iff, !negb_true_iff, !N.eqb_neq.
  intros [[[H1 H2] H3] H4]. repeat split; try assumption.
  destruct r; [exact I|]. apply negb_true_iff in H3. exact H3.
Qed.

Lemma tidy_no_double_space r :
  tidy r = true -> contains [space; space] r = false.
Proof.
  induction r as [|c r IH]; [reflexivity|].
  intros T. pose proof (tidy_tail c r T) as T'.
  cbn [contains]. rewrite (IH T'), orb_false_r.
  cbn [startswith]. destruct r as [|c' r]; [apply andb_false_r|].
  destruct (tidy_cons _ _ T) as [_ [_ [H _]]].
  cbn [startswith]. rewrite andb_true_r.
  rewrite (N.eqb_sym space c), (N.eqb_sym space c'). exact H.
Qed.

Lemma tidy_no_separator r :
  tidy r = true -> Forall (fun c => c <> backslash /\ c <> 47%N) r.
Proof.
  induction r as [|c r IH]; intros T; constructor.
  - destruct (tidy_cons _ _ T) as [H1 [H2 _]]. split; assumption.
  - apply IH. exact (tidy_tail c r T).
Qed.

Lemma join_spaces ws :
  Forall word ws ->
  Forall (fun c => isspace c = true -> c = space) (join (lit " ") ws).
Proof.
  assert (W : forall w, word w -> Forall (fun c => isspace c = true -> c = space) w).
  { intros w [_ H]. induction H as [|c w [Hc _] Hw IH]; constructor; auto.
    rewrite Hc. discriminate. }
  induction 1 as [|w ws Hw Hws IH]; [constructor|].
  destruct ws as [|w' ws']; [exact (W w Hw)|].
  change (join (lit " ") (w :: w' :: ws'))
    with (w ++ space :: join (lit " ") (w' :: ws')).
  apply Forall_app. split; [exact (W w Hw)|].
  constructor; [reflexivity | exact IH].
Qed.

(** X1: a normalized name holds no path separator, no white space but single
    spaces between words, and nothing to strip. *)
Theorem normalize_name_shape (v : value) :
  Forall (fun c => c <> backslash /\ c <> 47%N
                   /\ (isspace c = true -> c = space))
         (normalize_name v)
  /\ contains [space; space] (normalize_name v) = false
  /\ strip (normalize_name v) = normalize_name v.
Proof.
  assert (H : normalized (normalize_name v)).
  { destruct v; try (exists []; split; [constructor | reflexivity]).
    apply normalize_name_normalized. }
  destruct H as [ws [Hws ->]].
  pose proof (tidy_join ws Hws) as T.
  split; [|split].
  - pose proof (tidy_no_separator _ T) as H1.
    pose proof (join_spaces ws Hws) as H2.
    induction (join (lit " ") ws) as [|c r IH]; constructor.
    + inversion H1; inversion H2; subst. tauto.
    + inversion H1; inversion H2; subst.
      apply IH; [exact (tidy_tail _ _ T) | assumption | assumption].
  - exact (tidy_no_double_space _ T).
  - apply strip_join. exact Hws.
Qed.

Lemma replace_char_flat_map c new s :
  replace [c] new s = flat_map (fun x => if (c =? x)%N then new else [x]) s.
Proof.
  unfold replace. induction s as [|x s IH]; [reflexivity|].
  rewrite replace_from_0. cbn [startswith List.length pred flat_map].
  rewrite andb_true_r, IH. destruct (c =? x)%N; reflexivity.
Qed.

Lemma flat_map_clean c new w :
  Forall clean w -> (c = backslash \/ c = 47%N) ->
  flat_map (fun x => if (c =? x)%N then new else [x]) w = w.
Proof.
  intros H Hc. induction H as [|x w [_ [Hb Hf]] Hw IH]; [reflexivity|].
  cbn [flat_map]. rewrite IH.
  destruct (N.eqb_spec c x) as [E | E]; [|reflexivity].
  subst x. destruct Hc; contradiction.
Qed.

Lemma dash_word : word [em_dash].
Proof.
  split; [discriminate|]. repeat constructor; discriminate.
Qed.

(** X3: a path separator between two words becomes the dash between
    spaces. *)
Theorem normalize_name_separator (c : char) (a b : pystr) :
  c = backslash \/ c = 47%N ->
  word a -> word b ->
  normalize_name (VStr (a ++ c :: b)) = a ++ dash_sep ++ b.
Proof.
  intros Hc Ha Hb.
  assert (Hws : Forall word [a; [em_dash]; b]).
  { constructor; [exact Ha|]. constructor; [exact dash_word|].
    constructor; [exact Hb | constructor]. }
  assert (E : replace (lit "/") dash_sep
                (replace [backslash] dash_sep (a ++ c :: b))
              = join (lit " ") [a; [em_dash]; b]).
  { change (join (lit " ") [a; [em_dash]; b]) with (a ++ dash_sep ++ b).
    change (lit "/") with [47%N].
    rewrite !replace_char_flat_map, !flat_map_app. cbn [flat_map].
    rewrite (flat_map_clean backslash _ a), (flat_map_clean backslash _ b)
      by (apply Ha || apply Hb || (left; reflexivity)).
    destruct Hc as [-> | ->]; cbn [N.eqb Pos.eqb backslash];
      rewrite !flat_map_app; cbn [flat_map N.eqb Pos.eqb app dash_sep space em_dash];
      rewrite (flat_map_clean 47%N _ a), (flat_map_clean 47%N _ b)
        by (apply Ha || apply Hb || (right; reflexivity));
      reflexivity. }
  unfold normalize_name. rewrite E.
  pose proof (tidy_join _ Hws) as T.
  rewrite (replace_absent [space; em_dash; space; space]) by
    (try exact T; exact untidy_dash_right).
  rewrite (replace_absent [space; space; em_dash; space]) by
    (try exact T; exact untidy_dash_left).
  rewrite split_join by exact Hws.
  rewrite strip_join by exact Hws. reflexivity.
Qed.


(** X2: the normalized name of a text is empty exactly when the text is
    made of white space only. *)
Theorem normalize_name_empty_iff_blank (n : pystr) :
  normalize_name (VStr n) = [] <-> blank n = true.
Proof.
  split; intros H.
  - apply (proj1 (normalize_name_nil_blank n)). exact H.
  - apply (proj2 (normalize_name_nil_blank n)). exact H.
Qed.

End TextMore.

(* ================================================================== *)
(** * The search for the patch list *)

Module WalkerFacts.
Import Py Parser ParserSpec ParserFacts WalkerSpec.


(** Induction on a value with the hypothesis on every element of a list
    and on every entry of a dictionary. *)
Lemma value_nested_ind (P : value -> Prop) :
  (forall v, match v with VList _ | VDict _ => False | _ => True end -> P v) ->
  (forall l, Forall P l -> P (VList l)) ->
  (forall d, Forall (fun kv => P (snd kv)) d -> P (VDict d)) ->
  forall v, P v.
Proof.
  intros Hs Hl Hd. fix IH 1. intros v.
  destruct v; try (apply Hs; exact I).
  - apply Hl. induction l as [|x l IHl]; constructor; [apply IH | exact IHl].
  - apply Hd. induction d as [|[k x] d IHd]; constructor;
      [apply IH | exact IHd].
Qed.

Section Walker.
Context {B : Builtins}.





(** X5: the walker never returns an empty list of sets, and without a patch
    list it returns the single set "Default". *)
Theorem extract_sets_and_patches_some_set (raw : value) (sets : list Set_.t) :
  extract_sets_and_patches raw = Ok sets ->
  sets <> []
  /\ (find_patchlist_children raw = Ok None ->
      exists patches, sets = [Set_.mk (lit "Default") patches []]).
Proof.
  unfold extract_sets_and_patches.
  destruct (find_patchlist_children raw) as [[[|x l]|]|]; cbn [bind];
    try discriminate.
  - destruct (extract_patches_recursive raw); [|discriminate]. cbn [bind].
    intros E. injection E as <-. split; discriminate.
  - destruct (extend_each sets_of_child (x :: l)) as [[|s ss]|];
      [| |discriminate]; cbn [bind].
    + destruct (extract_patches_recursive raw); [|discriminate]. cbn [bind].
      intros E. injection E as <-. split; discriminate.
    + intros E. injection E as <-. split; discriminate.
  - destruct (extract_patches_recursive raw); [|discriminate]. cbn [bind].
    intros E. injection E as <-. split; [discriminate|]. eauto.
Qed.

End Walker.
End WalkerFacts.

(* ================================================================== *)
(** * Channel strips, plugins and the concert name *)

Module StripFacts.
Import Py TextSpec TextFacts Parser ParserSpec ParserFacts.
Import NameSpec ModelSpec TextMore.


Section Strips.
Context {B : Builtins}.

Lemma infer_strip_kind_text d t :
  strip_type d = VStr t ->
  exists k, infer_strip_kind (VDict d) = Ok k /\ In k strip_kinds.
Proof.
  intros E. unfold infer_strip_kind. cbn [on_dict].
  fold (strip_type d). rewrite E. cbn [lower_method bind contains_method].
  unfold strip_kinds.
  destruct (contains (lit "inst") (lower t)); [eexists; split; [reflexivity | simpl; tauto]|].
  destruct (contains (lit "audio") (lower t)); [eexists; split; [reflexivity | simpl; tauto]|].
  destruct (contains (lit "midi") (lower t)); [eexists; split; [reflexivity | simpl; tauto]|].
  destruct (existsb _ _); eexists; (split; [reflexivity | simpl; tauto]).
Qed.

Lemma infer_strip_kind_returns d k :
  infer_strip_kind (VDict d) = Ok k -> exists t, strip_type d = VStr t.
Proof.
  unfold infer_strip_kind. cbn [on_dict]. fold (strip_type d).
  destruct (strip_type d); try discriminate; eauto.
Qed.

(** What [parse_channel_strip] returns on a dictionary whose type is text. *)
Lemma parse_channel_strip_dict d k :
  infer_strip_kind (VDict d) = Ok k ->
  exists kr ps,
    infer_key_range (VDict d) = Ok kr
    /\ infer_plugins (VDict d) = Ok ps
    /\ parse_channel_strip (VDict d)
       = Ok (ChannelStrip.mk
               (normalize_name
                  (dict_get d (lit "name") |? dict_get d (lit "stripName")
                   |? dict_get d (lit "Name") |? VStr (lit "Strip")))
               k
               (coerce_int (dict_get d (lit "midiChannel")
                            |? dict_get d (lit "midi_channel")))
               kr
               (match coerce_int (dict_get d (lit "transpose") |? VInt 0) with
                | Some z => z
                | None => 0
                end)
               ps
               [(lit "_sourceClass",
                 dict_get d (lit "class") |? dict_get d (lit "_class"))]).
Proof.
  intros E. unfold parse_channel_strip. cbn [on_dict]. rewrite E. cbn [bind].
  do 2 eexists. split; [reflexivity|]. split; reflexivity.
Qed.

(** X6: [parse_channel_strip] returns a strip exactly on a dictionary whose
    strip type (under "stripType", else "type") is text or absent. *)
Theorem parse_channel_strip_returns_iff (raw : value) :
  (exists cs, parse_channel_strip raw = Ok cs)
  <-> exists d t, raw = VDict d /\ strip_type d = VStr t.
Proof.
  split.
  - intros [cs E]. destruct raw; try discriminate. exists d.
    unfold parse_channel_strip in E. cbn [on_dict] in E.
    destruct (infer_strip_kind (VDict d)) as [k|] eqn:K; [|discriminate].
    destruct (infer_strip_kind_returns d k K) as [t Ht]. eauto.
  - intros [d [t [-> Ht]]].
    destruct (infer_strip_kind_text d t Ht) as [k [K _]].
    destruct (parse_channel_strip_dict d k K) as [kr [ps [_ [_ E]]]]. eauto.
Qed.

Lemma normalize_name_value_normalized v : normalized (normalize_name v).
Proof.
  destruct v; try (exists []; split; [constructor | reflexivity]).
  apply normalize_name_normalized.
Qed.

Lemma parse_channel_strip_ok (raw : value) (cs : ChannelStrip.t) :
  parse_channel_strip raw = Ok cs -> strip_ok cs.
Proof.
  unfold strip_ok.
  intros E. destruct raw; try discriminate.
  assert (K : exists k, infer_strip_kind (VDict d) = Ok k).
  { unfold parse_channel_strip in E. cbn [on_dict] in E.
    destruct (infer_strip_kind (VDict d)); [eauto | discriminate]. }
  destruct K as [k K].
  destruct (infer_strip_kind_returns d k K) as [t Ht].
  destruct (infer_strip_kind_text d t Ht) as [k' [K' Hk]].
  rewrite K in K'. injection K' as <-.
  destruct (parse_channel_strip_dict d k K) as [kr [ps [Hkr [_ E']]]].
  rewrite E' in E. injection E as <-.
  cbn [ChannelStrip.name ChannelStrip.kind ChannelStrip.key_range].
  split; [apply normalize_name_value_normalized|]. split; [exact Hk|].
  intros kr' ->. exact (infer_key_range_in_range _ _ Hkr).
Qed.

(** X7: every strip [parse_channel_strip] returns has a normalized name,
    one of the three kinds, and a key range within 0..127 when it has one. *)
Theorem parse_channel_strip_invariants (raw : value) (cs : ChannelStrip.t) :
  parse_channel_strip raw = Ok cs ->
  normalized (ChannelStrip.name cs)
  /\ In (ChannelStrip.kind cs) strip_kinds
  /\ (forall kr, ChannelStrip.key_range cs = Some kr -> in_range kr).
Proof.
  intros E. exact (parse_channel_strip_ok raw cs E).
Qed.

(** ** Plugins and names picked by their first non-blank text *)

Lemma strip_trimmed v c s : strip v = c :: s -> trimmed (c :: s).
Proof.
  intros E. split; [discriminate|]. rewrite <- E. apply strip_idempotent.
Qed.

Lemma _first_str_trimmed d keys : trimmed_opt (_first_str d keys).
Proof.
  induction keys as [|k keys IH]; [exact I|].
  cbn [_first_str]. destruct (dict_get d k); try exact IH.
  destruct (strip s) eqn:E; [exact IH|]. exact (strip_trimmed _ _ _ E).
Qed.

Lemma plugin_of_fields p : plugin_ok (plugin_of p).
Proof.
  unfold plugin_ok, plugin_of. cbn [Plugin.name Plugin.manufacturer Plugin.kind
                           Plugin.identifier].
  repeat split; try apply _first_str_trimmed.
  destruct (_first_str p _) as [[|c s]|]; discriminate.
Qed.

Lemma infer_plugins_all_ok d ps :
  infer_plugins (VDict d) = Ok ps -> Forall plugin_ok ps.
Proof.
  cbn [infer_plugins on_dict]. intros E. injection E as <-.
  apply Forall_forall. intros p Hp. apply in_map_iff in Hp.
  destruct Hp as [q [<- _]]. apply plugin_of_fields.
Qed.

(** X8: on a dictionary [infer_plugins] returns one plugin per dictionary
    found in the instrument slots and then in the inserts; every plugin has
    a name, and a manufacturer, kind or identifier it has is not empty and
    has nothing to strip. *)
Theorem infer_plugins_fields (d : dict) :
  exists ps,
    infer_plugins (VDict d) = Ok ps
    /\ Forall (fun p => Plugin.name p <> []
                        /\ trimmed_opt (Plugin.manufacturer p)
                        /\ trimmed_opt (Plugin.kind p)
                        /\ trimmed_opt (Plugin.identifier p)) ps
    /\ (forall l,
          dict_get d (lit "inserts") |? dict_get d (lit "audioFX") |? VList []
          = VList l ->
          List.length ps
          = (List.length
               (dicts_of [dict_get d (lit "instrument");
                          dict_get d (lit "instrumentPlugin");
                          dict_get d (lit "softwareInstrument")])
             + List.length (dicts_of l))%nat).
Proof.
  eexists. split; [reflexivity|]. split.
  - apply Forall_forall. intros p Hp. apply in_map_iff in Hp.
    destruct Hp as [q [<- _]]. apply plugin_of_fields.
  - intros l ->. rewrite length_map, length_app. reflexivity.
Qed.

Lemma first_name_first_str d keys : first_name d keys = _first_str d keys.
Proof.
  induction keys as [|k keys IH]; [reflexivity|].
  cbn [first_name _first_str]. rewrite IH. reflexivity.
Qed.

Lemma lstrip_nil_blank v : lstrip v = [] <-> blank v = true.
Proof.
  induction v as [|c v IH]; [split; reflexivity|].
  simpl. destruct (isspace c); [exact IH|]. split; discriminate.
Qed.

Lemma strip_nil_blank v : strip v = [] <-> blank v = true.
Proof.
  rewrite <- lstrip_nil_blank. unfold strip. split.
  - intros H. destruct (lstrip_shape v) as [E | [c [t [E Hc]]]]; [exact E|].
    rewrite E in H. destruct (rstrip_head c t Hc) as [t' E'].
    rewrite E' in H. discriminate.
  - intros ->. reflexivity.
Qed.

Lemma first_name_found d keys :
  match first_name d keys with
  | Some s =>
      exists key v, In key keys /\ dict_get d key = VStr v /\ s = strip v
  | None =>
      forall key v, In key keys -> dict_get d key = VStr v -> blank v = true
  end.
Proof.
  induction keys as [|k keys IH]; [intros key v []|].
  cbn [first_name].
  assert (Skip : match first_name d keys with
                 | Some s =>
                     exists key v, In key (k :: keys)
                                   /\ dict_get d key = VStr v /\ s = strip v
                 | None =>
                     (forall v, dict_get d k = VStr v -> blank v = true) ->
                     forall key v, In key (k :: keys) ->
                                   dict_get d key = VStr v -> blank v = true
                 end).
  { destruct (first_name d keys) as [s|].
    - destruct IH as [key [v [Hin Hv]]]. exists key, v.
      split; [right; exact Hin | exact Hv].
    - intros Hk key v [<- | Hin] Hv; [exact (Hk v Hv) | exact (IH key v Hin Hv)]. }
  destruct (dict_get d k) as [| | | |v| | | | |] eqn:Ek;
    try (destruct (first_name d keys); [exact Skip | apply Skip; discriminate]).
  destruct (strip v) as [|c s'] eqn:Es.
  - destruct (first_name d keys); [exact Skip|]. apply Skip.
    intros v' E. injection E as <-. apply strip_nil_blank. exact Es.
  - exists k, v. split; [left; reflexivity|].
    split; [exact Ek | symmetry; exact Es].
Qed.

(** X9: the concert name [infer_concert_name] finds is the stripped text
    under the first of its keys that holds text with more than white space;
    it is never empty, and there is none exactly when every text under
    these keys is blank. *)
Theorem infer_concert_name_trimmed (d : dict) :
  exists o,
    infer_concert_name (VDict d) = Ok o
    /\ trimmed_opt o
    /\ (forall s, o = Some s ->
          exists key v, In key concert_name_keys
                        /\ dict_get d key = VStr v /\ s = strip v)
    /\ (o = None <->
        forall key v, In key concert_name_keys ->
                      dict_get d key = VStr v -> blank v = true).
Proof.
  unfold infer_concert_name. cbn [on_dict]. eexists. split; [reflexivity|].
  pose proof (first_name_found d concert_name_keys) as F.
  pose proof (_first_str_trimmed d concert_name_keys) as T.
  rewrite <- first_name_first_str in T.
  split; [exact T|].
  destruct (first_name d concert_name_keys) as [s|].
  - split; [intros s' E; injection E as <-; exact F|].
    split; [discriminate|]. intros H. exfalso.
    destruct F as [key [v [Hin [Hv Es]]]].
    pose proof (H key v Hin Hv) as Hb. apply strip_nil_blank in Hb.
    destruct T as [Hne _]. apply Hne. rewrite Es. exact Hb.
  - split; [discriminate|]. split; [intros _; exact F | reflexivity].
Qed.

End Strips.
End StripFacts.

(* ================================================================== *)
(** * Patches, legacy channels and the tempo *)

Module PatchFacts.
Import Py TextSpec TextFacts Parser ParserSpec ShapeSpec ParserFacts.
Import NameSpec ModelSpec TextMore StripFacts.


Section Patches.
Context {B : Builtins}.

Lemma text_or_blank n default :
  blank default = false ->
  (blank (text_or n default) = true
   <-> exists s, n = Some s /\ s <> [] /\ blank s = true).
Proof.
  intros Hd. destruct n as [[|c s]|]; cbn [text_or].
  - rewrite Hd. split; [discriminate|]. intros [s [E [Hne _]]].
    injection E as <-. contradiction.
  - split.
    + intros H. exists (c :: s). repeat split; [discriminate | exact H].
    + intros [s' [E [_ H]]]. injection E as <-. exact H.
  - rewrite Hd. split; [discriminate|]. intros [s [E _]]. discriminate.
Qed.

(** X10: the name of the patch [extract_patch] returns is normalized, and it
    is empty exactly when the node is named by white space only; an absent,
    empty or non-text name gives "Patch". *)
Theorem extract_patch_name (node : value) (p : Patch.t) :
  extract_patch node = Ok p ->
  exists n,
    node_name node = Ok n
    /\ Patch.name p = normalize_name (VStr (text_or n (lit "Patch")))
    /\ normalized (Patch.name p)
    /\ (Patch.name p = []
        <-> exists s, n = Some s /\ s <> [] /\ blank s = true)
    /\ (n = None \/ n = Some [] -> Patch.name p = lit "Patch").
Proof.
  unfold extract_patch.
  destruct (node_name node) as [n|]; [|discriminate]. cbn [bind].
  destruct (extract_channel_strips node); [|discriminate]. cbn [bind].
  destruct (node_class node); [|discriminate]. cbn [bind].
  destruct (infer_bpm_from_node node) as [bpm|]; [|discriminate]. cbn [bind].
  intros E. injection E as <-. cbn [Patch.name].
  exists n. split; [reflexivity|]. split; [reflexivity|].
  split; [apply normalize_name_normalized|]. split.
  - rewrite <- (text_or_blank n (lit "Patch") eq_refl).
    exact (normalize_name_nil_blank _).
  - intros [-> | ->]; reflexivity.
Qed.

Lemma extend_each_singletons {A C} (f : A -> result C) l ps :
  extend_each (fun a => c <- f a ;; Ok [c]) l = Ok ps ->
  Forall2 (fun a c => f a = Ok c) l ps.
Proof.
  revert ps. induction l as [|a l IH]; intros ps; cbn [extend_each].
  - intros E. injection E as <-. constructor.
  - destruct (f a) as [c|] eqn:Fa; [|discriminate]. cbn [bind].
    destruct (extend_each _ l) as [qs|]; [|discriminate]. cbn [bind].
    intros E. injection E as <-. constructor; [exact Fa | apply IH; reflexivity].
Qed.

Lemma extend_each_ext {A C} (f g : A -> result (list C)) l :
  Forall (fun a => f a = g a) l -> extend_each f l = extend_each g l.
Proof.
  induction 1 as [|a l Ha Hl IH]; [reflexivity|].
  cbn [extend_each]. rewrite Ha, IH. reflexivity.
Qed.

(** X11: a set whose children are all classified as patches gives one patch
    per child, in order; what lies under a patch child is not searched. *)
Theorem extract_patches_from_set_patch_children
    (d : dict) (l : list value) (ps : list Patch.t) :
  dict_get d (lit "children") |? dict_get d (lit "_children")
  |? dict_get d (lit "patches") |? VList [] = VList l ->
  Forall (fun ch => classify_node ch = Ok KPatch) l ->
  extract_patches_from_set (VDict d) = Ok ps ->
  Forall2 (fun ch p => extract_patch ch = Ok p) l ps.
Proof.
  intros Hl Hk. unfold extract_patches_from_set. cbn [on_dict].
  rewrite Hl. cbn [iterate bind].
  rewrite (extend_each_ext _ (fun ch => p <- extract_patch ch ;; Ok [p])).
  - apply extend_each_singletons.
  - apply Forall_forall. intros ch Hch.
    rewrite Forall_forall in Hk. rewrite (Hk ch Hch). reflexivity.
Qed.

Lemma first_list_skip d before rest :
  Forall (fun k => is_list (dict_get d k) = false) before ->
  first_list d (before ++ rest) = first_list d rest.
Proof.
  induction 1 as [|k before Hk _ IH]; [reflexivity|].
  cbn [app first_list]. destruct (dict_get d k); try exact IH. discriminate.
Qed.

Lemma first_list_no_known d :
  no_known_strips d -> first_list d strip_list_keys = [].
Proof.
  intros [H | [before [key [after [E [Hb Hk]]]]]].
  - rewrite <- (app_nil_r strip_list_keys). rewrite first_list_skip by exact H.
    reflexivity.
  - rewrite E, first_list_skip by exact Hb. cbn [first_list]. rewrite Hk.
    reflexivity.
Qed.

Lemma first_strip_like_skip before rest :
  Forall (fun kv => strip_like (snd kv) = false) before ->
  first_strip_like (before ++ rest) = first_strip_like rest.
Proof.
  induction 1 as [|[k v] before Hv _ IH]; [reflexivity|].
  cbn [app first_strip_like]. cbn [snd] in Hv.
  destruct v as [| | | | | | | |l|]; try exact IH.
  destruct l as [|x l]; [exact IH|].
  destruct x; try exact IH. cbn [strip_like] in Hv. rewrite Hv. exact IH.
Qed.

Lemma first_strip_like_hit k l rest :
  strip_like (VList l) = true -> first_strip_like ((k, VList l) :: rest) = l.
Proof.
  destruct l as [|x l]; [discriminate|]. destruct x; try discriminate.
  cbn [strip_like first_strip_like]. intros ->. reflexivity.
Qed.

(** X12: [extract_channel_strips] drops no element of the list it picks: it
    gives one strip per element, in order.  The list picked is the one
    under the first known key that holds a list, when that list has an
    element.  When that list is empty, or no known key holds a list, the
    list picked is the value of the first entry of the node that looks like
    strips, and the empty list when no entry does. *)
Theorem extract_channel_strips_one_per_element
    (d : dict) (strips : list ChannelStrip.t) :
  extract_channel_strips (VDict d) = Ok strips ->
  exists raws,
    Forall2 (fun raw cs => parse_channel_strip raw = Ok cs) raws strips
    /\ (forall before key after x l,
          strip_list_keys = before ++ key :: after ->
          Forall (fun k => is_list (dict_get d k) = false) before ->
          dict_get d key = VList (x :: l) ->
          raws = x :: l)
    /\ (no_known_strips d ->
        (forall before k l after,
           d = before ++ (k, VList l) :: after ->
           Forall (fun kv => strip_like (snd kv) = false) before ->
           strip_like (VList l) = true ->
           raws = l)
        /\ (Forall (fun kv => strip_like (snd kv) = false) d -> raws = [])).
Proof.
  unfold extract_channel_strips. cbn [on_dict]. intros E.
  apply extend_each_singletons in E.
  eexists. split; [exact E|]. split.
  - intros before key after x l Hk Hb Hl.
    rewrite Hk, first_list_skip by exact Hb. cbn [first_list]. rewrite Hl.
    reflexivity.
  - intros Hn. rewrite (first_list_no_known d Hn). split.
    + intros before k l after -> Hb Hl.
      rewrite first_strip_like_skip by exact Hb.
      apply first_strip_like_hit. exact Hl.
    + intros H. rewrite <- (app_nil_r d).
      rewrite first_strip_like_skip by exact H. reflexivity.
Qed.

End Patches.

Section Legacy.
Context {B : Builtins}.

(** X13: the legacy loop never raises: it gives one strip per channel that is
    a dictionary, in order, and passes over every other channel. *)
Theorem legacy_strips_one_per_dict (channels : list value) (sub : option pystr) :
  exists strips,
    legacy_strips channels sub = Ok strips
    /\ Forall2 (fun d cs => parse_legacy_channel (VDict d) sub = Ok (Some cs))
               (dicts_of channels) strips.
Proof.
  induction channels as [|ch channels [strips [E F]]].
  - exists []. split; [reflexivity | constructor].
  - cbn [legacy_strips]. rewrite E.
    destruct ch as [| | | | | | | | |d];
      try (cbn [parse_legacy_channel bind dicts_of];
           exists strips; split; [reflexivity | exact F]).
    destruct (parse_legacy_channel_dict d sub) as [n [ps [ns Ed]]].
    rewrite Ed. cbn [bind dicts_of]. eexists. split; [reflexivity|].
    constructor; [exact Ed | exact F].
Qed.

(** X14: the transpose of a legacy channel is read from the first note object
    of its archive, unclamped, whether or not the bounds of that object give
    a key range; the key range is dropped when a bound is not a number. *)
Theorem legacy_transpose_from_note_object
    (d : dict) (sub : option pystr) (b : list byte)
    (ly : dict) (os : list value) (t : dict) :
  dict_get d (lit "layer") = VBytes b ->
  plistlib_loads b = Some (VDict ly) ->
  lookup ly (lit "$objects") = Some (VList os) ->
  find is_note_object os = Some (VDict t) ->
  exists cs,
    parse_legacy_channel (VDict d) sub = Ok (Some cs)
    /\ ChannelStrip.transpose cs
       = match coerce_int (dict_get t (lit "transpose")) with
         | Some z => z
         | None => 0
         end
    /\ (ChannelStrip.key_range cs = None
        <-> coerce_int (dict_get t (lit "lowNote")) = None
            \/ coerce_int (dict_get t (lit "highNote")) = None).
Proof.
  intros Hd Hb Ho Hf.
  destruct (parse_legacy_channel_dict d sub) as [n [ps [ns E]]].
  eexists. split; [exact E|].
  cbn [ChannelStrip.transpose ChannelStrip.key_range]. rewrite Hd.
  unfold decode_if_bytes, decode_layer.
  rewrite Hb. cbn [bind on_dict]. unfold dict_get_default. rewrite Ho.
  cbn [iterate bind]. rewrite Hf.
  rewrite (note_object_truthy t) by (apply find_some in Hf; apply Hf).
  destruct (coerce_int (dict_get t (lit "lowNote"))),
           (coerce_int (dict_get t (lit "highNote")));
    cbn [fst snd]; (split; [reflexivity|]);
    split; try discriminate; try tauto; intros [H | H]; discriminate.
Qed.

(** X15: for a patch whose tempo lies in its engine node, the walker and the
    legacy adapter find the same tempo, but for an engine that follows the
    MIDI tempo and has no tempo of its own: there only the legacy adapter
    drops it. *)
Theorem tempo_legacy_and_walker
    (raw p eng : dict) (f : spec_float) :
  dict_get raw (lit "patch") = VDict p ->
  dict_get p (lit "engineNode") = VDict eng ->
  is_number (dict_get p (lit "tempo")) = false ->
  is_number (dict_get eng (lit "tempo")) = true ->
  py_float (dict_get eng (lit "tempo")) = Ok f ->
  infer_bpm_from_node (VDict p) = Ok (Some f)
  /\ infer_bpm_from_patch_dict (VDict raw)
     = if negb (truthy (dict_get eng (lit "hasTempo")))
          && truthy (dict_get eng (lit "followMIDITempo"))
       then None else Some f.
Proof.
  intros Hp He Hn Ht Hf. split.
  - unfold infer_bpm_from_node. cbn [on_dict]. rewrite Hn, He, Ht, Hf.
    reflexivity.
  - unfold infer_bpm_from_patch_dict, legacy_tempo. cbn [on_dict].
    rewrite Hp, He.
    destruct (negb _ && _); [reflexivity|]. rewrite Ht, Hf. reflexivity.
Qed.

End Legacy.
End PatchFacts.

(* ================================================================== *)
(** * The model the walker returns *)

Module ModelFacts.
Import Py TextSpec TextFacts Parser ParserSpec ParserFacts.
Import NameSpec ModelSpec TextMore WalkerFacts StripFacts PatchFacts.


Section Walker.
Context {B : Builtins}.

Lemma extract_patch_ok node p : extract_patch node = Ok p -> patch_ok p.
Proof.
  unfold extract_patch.
  destruct (node_name node) as [n|]; [|discriminate]. cbn [bind].
  destruct (extract_channel_strips node) as [strips|] eqn:S; [|discriminate].
  cbn [bind].
  destruct (node_class node); [|discriminate]. cbn [bind].
  destruct (infer_bpm_from_node node); [|discriminate]. cbn [bind].
  intros E. injection E as <-. split.
  - apply normalize_name_normalized.
  - cbn [Patch.channel_strips]. destruct node; try discriminate.
    unfold extract_channel_strips in S. cbn [on_dict] in S.
    apply extend_each_singletons in S.
    induction S as [|raw cs raws strips Hcs _ IH]; constructor.
    + exact (parse_channel_strip_ok raw cs Hcs).
    + exact IH.
Qed.

Lemma extend_each_all {A C} (R : C -> Prop) (f : A -> result (list C)) l :
  Forall (fun a => forall ys, f a = Ok ys -> Forall R ys) l ->
  forall zs, extend_each f l = Ok zs -> Forall R zs.
Proof.
  induction 1 as [|a l Ha Hl IH]; intros zs; cbn [extend_each].
  - intros E. injection E as <-. constructor.
  - destruct (f a) as [ys|]; [|discriminate]. cbn [bind].
    destruct (extend_each f l) as [ws|]; [|discriminate]. cbn [bind].
    intros E. injection E as <-. apply Forall_app. split; auto.
Qed.

Lemma lookup_in d k v : lookup d k = Some v -> exists k', In (k', v) d.
Proof.
  induction d as [|[k' v'] d IH]; [discriminate|].
  cbn [lookup]. destruct (str_eqb k' k).
  - intros E. injection E as ->. exists k'. left. reflexivity.
  - intros E. destruct (IH E) as [k'' H]. exists k''. right. exact H.
Qed.

Lemma extract_patches_recursive_ok :
  forall node ps,
    extract_patches_recursive node = Ok ps -> Forall patch_ok ps.
Proof.
  set (Q := fun v => forall ps,
                extract_patches_recursive v = Ok ps -> Forall patch_ok ps).
  enough (H : forall v, Q v /\ forall l, v = VList l -> Forall Q l)
    by (intros node; apply H).
  intros v. induction v as [v Hv | l IH | d IH] using value_nested_ind.
  - split.
    + intros ps. destruct v; try contradiction; discriminate.
    + intros l ->. contradiction.
  - split; [intros ps; discriminate|].
    intros l' E. injection E as <-.
    apply Forall_forall. intros c Hc. rewrite Forall_forall in IH.
    apply (IH c Hc).
  - split; [|discriminate].
    intros ps. rewrite extract_patches_recursive_eq.
    destruct (classify_node (VDict d)) as [k|]; [|discriminate]. cbn [bind].
    assert (Hout : forall out,
               (if is_patch k then p <- extract_patch (VDict d) ;; Ok [p]
                else Ok []) = Ok out -> Forall patch_ok out).
    { intros out. destruct (is_patch k).
      - destruct (extract_patch (VDict d)) as [p|] eqn:E; [|discriminate].
        cbn [bind]. intros E'. injection E' as <-.
        constructor; [exact (extract_patch_ok _ _ E) | constructor].
      - intros E. injection E as <-. constructor. }
    destruct (if is_patch k then _ else _) as [out|]; [|discriminate].
    specialize (Hout out eq_refl). cbn [bind on_dict].
    assert (Hkey : forall key zs,
               match dict_get d key with
               | VList l => extend_each extract_patches_recursive l
               | _ => Ok []
               end = Ok zs -> Forall patch_ok zs).
    { intros key zs. unfold dict_get.
      destruct (lookup d key) as [v|] eqn:L.
      - destruct (lookup_in d key v L) as [k' Hin].
        rewrite Forall_forall in IH. destruct (IH _ Hin) as [_ Hl].
        cbn [snd] in Hl.
        destruct v; try (intros E; injection E as <-; constructor).
        apply extend_each_all. exact (Hl l eq_refl).
      - intros E. injection E as <-. constructor. }
    destruct (match dict_get d (lit "children") with VList _ => _ | _ => _ end)
      as [a|] eqn:Ea; [|discriminate].
    destruct (match dict_get d (lit "_children") with VList _ => _ | _ => _ end)
      as [b|] eqn:Eb; [|discriminate].
    destruct (match dict_get d (lit "patches") with VList _ => _ | _ => _ end)
      as [c|] eqn:Ec; [|discriminate].
    cbn [bind]. intros E. injection E as <-.
    repeat (apply Forall_app; split); eauto.
Qed.

Lemma extract_patches_from_set_ok node ps :
  extract_patches_from_set node = Ok ps -> Forall patch_ok ps.
Proof.
  destruct node; try discriminate.
  unfold extract_patches_from_set. cbn [on_dict].
  destruct (iterate _) as [chs|]; [|discriminate]. cbn [bind].
  apply extend_each_all. apply Forall_forall. intros ch _ ys.
  destruct (classify_node ch) as [k|]; [|discriminate]. cbn [bind].
  destruct (is_patch k); [|apply extract_patches_recursive_ok].
  destruct (extract_patch ch) as [p|] eqn:E; [|discriminate]. cbn [bind].
  intros E'. injection E' as <-.
  constructor; [exact (extract_patch_ok _ _ E) | constructor].
Qed.

Lemma sets_of_child_ok child sets :
  sets_of_child child = Ok sets ->
  Forall (fun s => Forall patch_ok (Set_.patches s)) sets.
Proof.
  unfold sets_of_child.
  destruct (classify_node child) as [[| |]|]; [| | |discriminate]; cbn [bind].
  - destruct (node_name child); [|discriminate]. cbn [bind].
    destruct (extract_patches_from_set child) as [ps|] eqn:E; [|discriminate].
    cbn [bind]. destruct (node_class child); [|discriminate]. cbn [bind].
    intros E'. injection E' as <-.
    constructor; [exact (extract_patches_from_set_ok _ _ E) | constructor].
  - destruct (extract_patch child) as [p|] eqn:E; [|discriminate]. cbn [bind].
    intros E'. injection E' as <-. constructor; [|constructor].
    cbn [Set_.patches]. constructor; [exact (extract_patch_ok _ _ E) | constructor].
  - destruct (extract_patches_recursive child) as [ps|] eqn:E; [|discriminate].
    cbn [bind]. destruct ps as [|p ps].
    + intros E'. injection E' as <-. constructor.
    + destruct (node_name child); [|discriminate]. cbn [bind].
      destruct (node_class child); [|discriminate]. cbn [bind].
      intros E'. injection E' as <-.
      constructor; [exact (extract_patches_recursive_ok _ _ E) | constructor].
Qed.

(** X16: whatever the walker returns is a well-formed model: every patch of
    every set has a normalized name, and every channel strip has a
    normalized name, one of the kinds instrument, audio and midi, and a key
    range within 0..127 when it has one. *)
Theorem extract_sets_and_patches_well_formed
    (raw : value) (sets : list Set_.t) :
  extract_sets_and_patches raw = Ok sets ->
  Forall (fun s => Forall patch_ok (Set_.patches s)) sets.
Proof.
  assert (D : forall ps,
             extract_patches_recursive raw = Ok ps ->
             Forall (fun s => Forall patch_ok (Set_.patches s))
                    [Set_.mk (lit "Default") ps []]).
  { intros ps E. constructor; [|constructor].
    exact (extract_patches_recursive_ok _ _ E). }
  unfold extract_sets_and_patches.
  destruct (find_patchlist_children raw) as [[[|x l]|]|]; cbn [bind];
    try discriminate.
  - destruct (extract_patches_recursive raw) as [ps|]; [|discriminate].
    cbn [bind]. intros E. injection E as <-. apply D. reflexivity.
  - destruct (extend_each sets_of_child (x :: l)) as [sets'|] eqn:S;
      [|discriminate]. cbn [bind].
    destruct sets' as [|s ss].
    + destruct (extract_patches_recursive raw) as [ps|]; [|discriminate].
      cbn [bind]. intros E. injection E as <-. apply D. reflexivity.
    + intros E. injection E as <-.
      revert S. apply extend_each_all. apply Forall_forall.
      intros ch _. apply sets_of_child_ok.
  - destruct (extract_patches_recursive raw) as [ps|]; [|discriminate].
    cbn [bind]. intros E. injection E as <-. apply D. reflexivity.
Qed.

End Walker.
End ModelFacts.

(* ================================================================== *)
(** * Grouped mode, layer sources and note names *)

Module MapperFacts.
Import Py TextSpec TextFacts Parser ParserSpec ParserFacts.
Import Models Emit EmitSpec EmitFacts.
Import NameSpec ModelSpec NoteSpec TextMore StripFacts.


(** ** Dictionaries: assignment, the comprehension without "bpm" *)

Lemma str_eqb_refl k : str_eqb k k = true.
Proof. apply str_eqb_eq. reflexivity. Qed.

Lemma str_eqb_neq a b : a <> b -> str_eqb a b = false.
Proof.
  intros H. destruct (str_eqb a b) eqn:E; [|reflexivity].
  apply str_eqb_eq in E. contradiction.
Qed.

Lemma lookup_dict_set_same d k v : lookup (dict_set d k v) k = Some v.
Proof.
  induction d as [|[k' v'] d IH]; cbn [dict_set lookup].
  - rewrite str_eqb_refl. reflexivity.
  - destruct (str_eqb k' k) eqn:E; cbn [lookup]; rewrite E;
      [reflexivity | exact IH].
Qed.

Lemma lookup_dict_set_other d k v k' :
  k' <> k -> lookup (dict_set d k v) k' = lookup d k'.
Proof.
  intros H. induction d as [|[k0 v0] d IH]; cbn [dict_set lookup].
  - rewrite (str_eqb_neq k k') by congruence. reflexivity.
  - destruct (str_eqb k0 k) eqn:E; cbn [lookup]; [|rewrite IH; reflexivity].
    apply str_eqb_eq in E. subst k0.
    rewrite (str_eqb_neq k k') by congruence. reflexivity.
Qed.

Lemma lookup_without_bpm d k :
  lookup (filter not_bpm d) k
  = if str_eqb k (lit "bpm") then None else lookup d k.
Proof.
  induction d as [|[k0 v0] d IH]; cbn [filter lookup].
  - destruct (str_eqb k (lit "bpm")); reflexivity.
  - unfold not_bpm at 1. cbn [fst].
    destruct (str_eqb k0 (lit "bpm")) eqn:E0; cbn [negb lookup].
    + rewrite IH. destruct (str_eqb k (lit "bpm")) eqn:Ek; [reflexivity|].
      apply str_eqb_eq in E0. subst k0.
      rewrite str_eqb_neq; [reflexivity|].
      intros <-. rewrite str_eqb_refl in Ek. discriminate.
    + rewrite IH. destruct (str_eqb k0 k) eqn:E; [|reflexivity].
      apply str_eqb_eq in E. subst k0. rewrite E0. reflexivity.
Qed.

Lemma scene_without_bpm p :
  scene_name (scene_from_patch p false) = Patch.name p
  /\ dict_mem (scene_metadata (scene_from_patch p false)) (lit "bpm") = false
  /\ (forall k, k <> lit "bpm" ->
        lookup (scene_metadata (scene_from_patch p false)) k
        = lookup (Patch.attributes p) k).
Proof.
  split; [reflexivity|].
  unfold scene_from_patch. cbn [scene_metadata negb andb].
  destruct (dict_mem (Patch.attributes p) (lit "bpm")) eqn:M; split.
  - unfold dict_mem. rewrite lookup_without_bpm. reflexivity.
  - intros k Hk. rewrite lookup_without_bpm, (str_eqb_neq k) by exact Hk.
    reflexivity.
  - exact M.
  - reflexivity.
Qed.

Lemma find_first {A} (f : A -> bool) before p after :
  Forall (fun q => f q = false) before -> f p = true ->
  find f (before ++ p :: after) = Some p.
Proof.
  induction 1 as [|q before Hq _ IH]; intros Hp; cbn [app find].
  - rewrite Hp. reflexivity.
  - rewrite Hq. exact (IH Hp).
Qed.

Lemma find_none_all {A} (f : A -> bool) l :
  Forall (fun q => f q = false) l -> find f l = None.
Proof.
  induction 1 as [|q l Hq _ IH]; [reflexivity|].
  cbn [find]. rewrite Hq. exact IH.
Qed.

(** X17: in grouped mode the songs are the sets, one for one and in order,
    and the scenes of a song are the patches of its set; no scene carries a
    "bpm" entry, and every other entry of the patch attributes is kept; the
    song keeps every entry of the set attributes but "bpm". *)
Theorem grouped_one_song_per_set now c path :
  Forall2
    (fun song s =>
       song_name song = Set_.name s
       /\ Forall2
            (fun scene p =>
               scene_name scene = Patch.name p
               /\ dict_mem (scene_metadata scene) (lit "bpm") = false
               /\ (forall k, k <> lit "bpm" ->
                     lookup (scene_metadata scene) k
                     = lookup (Patch.attributes p) k))
            (scenes song) (Set_.patches s)
       /\ (forall k, k <> lit "bpm" ->
             lookup (song_metadata song) k = lookup (Set_.attributes s) k))
    (songs (build_camelot_session now c false path)) (Concert.sets c).
Proof.
  cbn [songs build_camelot_session].
  apply Forall2_map_self. intros s. split; [reflexivity|]. split.
  - cbn [scenes song_of_set]. apply Forall2_map_self. exact scene_without_bpm.
  - intros k Hk. unfold song_of_set. cbn [song_metadata].
    destruct (find has_bpm (Set_.patches s)); [|reflexivity].
    apply lookup_dict_set_other. exact Hk.
Qed.

(** X18: in grouped mode the tempo of a song is that of the first patch of
    the set that declares one, whatever the later patches and the set
    itself declare; when no patch declares a tempo the song has the
    attributes of the set unchanged. *)
Theorem grouped_tempo_first_declared now c path :
  Forall2
    (fun song s =>
       (forall before p after,
          Set_.patches s = before ++ p :: after ->
          Forall (fun q => has_bpm q = false) before ->
          has_bpm p = true ->
          lookup (song_metadata song) (lit "bpm")
          = Some (dict_get (Patch.attributes p) (lit "bpm")))
       /\ (Forall (fun q => has_bpm q = false) (Set_.patches s) ->
           song_metadata song = Set_.attributes s))
    (songs (build_camelot_session now c false path)) (Concert.sets c).
Proof.
  cbn [songs build_camelot_session].
  apply Forall2_map_self. intros s. unfold song_of_set. cbn [song_metadata].
  split.
  - intros before p after E Hb Hp. rewrite E, (find_first _ _ _ _ Hb Hp).
    apply lookup_dict_set_same.
  - intros H. rewrite (find_none_all _ _ H). reflexivity.
Qed.

(** X19: the two modes give the same scenes, patch for patch: the same names
    and the same layers; they differ only in the "bpm" entry, which the
    flattened scenes keep. *)
Theorem modes_share_scenes now c path :
  Forall2
    (fun a b =>
       scene_name a = scene_name b
       /\ layers a = layers b
       /\ (forall k, k <> lit "bpm" ->
             lookup (scene_metadata b) k = lookup (scene_metadata a) k))
    (all_scenes (build_camelot_session now c true path))
    (all_scenes (build_camelot_session now c false path)).
Proof.
  rewrite !all_scenes_of_session.
  apply Forall2_map_both. intros p. split; [reflexivity|].
  split; [reflexivity|].
  intros k Hk. destruct (scene_without_bpm p) as [_ [_ H]].
  rewrite (H k Hk). reflexivity.
Qed.

Section Sources.
Context {B : Builtins}.

Lemma parse_channel_strip_plugins_ok raw cs :
  parse_channel_strip raw = Ok cs -> Forall plugin_ok (ChannelStrip.plugins cs).
Proof.
  intros E. destruct raw; try discriminate.
  assert (K : exists k, infer_strip_kind (VDict d) = Ok k).
  { unfold parse_channel_strip in E. cbn [on_dict] in E.
    destruct (infer_strip_kind (VDict d)); [eauto | discriminate]. }
  destruct K as [k K].
  destruct (parse_channel_strip_dict d k K) as [kr [ps [_ [Hps E']]]].
  rewrite E' in E. injection E as <-. cbn [ChannelStrip.plugins].
  exact (infer_plugins_all_ok d ps Hps).
Qed.

(** X20: the source of a layer built from a strip the walker parsed is, when
    the strip has plugins, the plugin source made of the name, manufacturer,
    kind and identifier of the first one, each in its own place, the name
    not empty and the others stripped and not empty where present; and,
    when the strip has no plugin, the strip source made of the kind of the
    strip, one of the three, and of its name. *)
Theorem layer_source_of_parsed_strip (raw : value) (cs : ChannelStrip.t) :
  parse_channel_strip raw = Ok cs ->
  (forall p rest,
     ChannelStrip.plugins cs = p :: rest ->
     source (layer_from_strip cs)
     = PluginSource (Plugin.name p) (Plugin.manufacturer p) (Plugin.kind p)
                    (Plugin.identifier p)
     /\ Plugin.name p <> []
     /\ trimmed_opt (Plugin.manufacturer p)
     /\ trimmed_opt (Plugin.kind p)
     /\ trimmed_opt (Plugin.identifier p))
  /\ (ChannelStrip.plugins cs = [] ->
      source (layer_from_strip cs)
      = StripSource (ChannelStrip.kind cs) (ChannelStrip.name cs)
      /\ In (ChannelStrip.kind cs) strip_kinds).
Proof.
  intros E.
  destruct (parse_channel_strip_ok raw cs E) as [_ [Hk _]].
  pose proof (parse_channel_strip_plugins_ok raw cs E) as F.
  unfold layer_from_strip, plugin_source. cbn [source]. split.
  - intros p rest Hp. rewrite Hp in *. split; [reflexivity|].
    inversion F as [| p0 r0 Hok Hr]; subst. exact Hok.
  - intros Hp. rewrite Hp. split; [reflexivity | exact Hk].
Qed.

End Sources.

(** ** Note names *)

Lemma in_notes a : 0 <= a <= 127 -> In a (map Z.of_nat (seq 0 128)).
Proof.
  intros H. apply in_map_iff. exists (Z.to_nat a).
  split; [lia|]. apply in_seq. lia.
Qed.

(** X21: [midi_to_note] names a note outside 0..127 as the nearest bound, and
    inside that range no two notes share a name. *)
Theorem midi_to_note_names :
  (forall n, midi_to_note (Some n) = midi_to_note (Some (clamp_note n)))
  /\ (forall a b,
        0 <= a <= 127 -> 0 <= b <= 127 ->
        midi_to_note (Some a) = midi_to_note (Some b) -> a = b)
  /\ midi_to_note None = [].
Proof.
  split; [|split; [|reflexivity]].
  - intros n. unfold midi_to_note, clamp_note.
    replace (Z.max 0 (Z.min 127 (Z.max 0 (Z.min 127 n))))
      with (Z.max 0 (Z.min 127 n)) by lia.
    reflexivity.
  - intros a b Ha Hb E.
    assert (C : note_names_differ = true) by (vm_compute; reflexivity).
    unfold note_names_differ in C. rewrite forallb_forall in C.
    specialize (C a (in_notes a Ha)). rewrite forallb_forall in C.
    specialize (C b (in_notes b Hb)).
    rewrite E, str_eqb_refl in C. apply Z.eqb_eq. exact C.
Qed.

End MapperFacts.

(* ================================================================== *)
(** * The properties above on the sample inputs *)

Module Instances.
Import Py TextSpec TextFacts Parser ParserSpec ShapeSpec ParserFacts.
Import Models Emit EmitSpec EmitFacts.
Import NameSpec ModelSpec TextMore WalkerFacts StripFacts PatchFacts.
Import ModelFacts MapperFacts.


#[local] Existing Instance Fixture.builtins.

Lemma normalize_name_separator_witness :
  normalize_name (VStr (lit "Sampler/Synclavier"))
  = lit "Sampler" ++ dash_sep ++ lit "Synclavier".
Proof.
  apply (normalize_name_separator 47%N (lit "Sampler") (lit "Synclavier")).
  - right. reflexivity.
  - split; [discriminate|]. repeat (constructor; [repeat split; discriminate|]).
    constructor.
  - split; [discriminate|]. repeat (constructor; [repeat split; discriminate|]).
    constructor.
Defined.


Lemma extract_sets_and_patches_some_set_witness :
  [Set_.mk (lit "Default") [] []] <> []
  /\ (find_patchlist_children (VDict []) = Ok None ->
      exists patches,
        [Set_.mk (lit "Default") [] []] = [Set_.mk (lit "Default") patches []]).
Proof.
  apply (extract_sets_and_patches_some_set (VDict [])).
  reflexivity.
Defined.

Lemma parse_channel_strip_invariants_witness :
  exists cs,
    parse_channel_strip Samples.piano_strip = Ok cs
    /\ ChannelStrip.key_range cs = Some (KeyRange.mk 127 0)
    /\ normalized (ChannelStrip.name cs)
    /\ In (ChannelStrip.kind cs) strip_kinds
    /\ (forall kr, ChannelStrip.key_range cs = Some kr -> in_range kr).
Proof.
  eexists. split; [reflexivity|]. split; [reflexivity|].
  apply (parse_channel_strip_invariants Samples.piano_strip).
  reflexivity.
Defined.

Lemma extract_patch_name_witness :
  exists n,
    node_name Samples.lead_patch = Ok n
    /\ lit "Lead" ++ dash_sep ++ lit "Solo"
       = normalize_name (VStr (text_or n (lit "Patch")))
    /\ normalized (lit "Lead" ++ dash_sep ++ lit "Solo")
    /\ (lit "Lead" ++ dash_sep ++ lit "Solo" = []
        <-> exists s, n = Some s /\ s <> [] /\ blank s = true)
    /\ (n = None \/ n = Some [] ->
        lit "Lead" ++ dash_sep ++ lit "Solo" = lit "Patch").
Proof.
  eapply (extract_patch_name Samples.lead_patch
            (Patch.mk (lit "Lead" ++ dash_sep ++ lit "Solo") _ _)).
  reflexivity.
Defined.

Lemma extract_patches_from_set_patch_children_witness :
  exists ps,
    extract_patches_from_set (VDict Samples.two_patch_set)
    = Ok ps
    /\ Forall2 (fun ch p => extract_patch ch = Ok p)
               [Samples.lead_patch; Samples.pad_patch] ps.
Proof.
  eexists. split; [reflexivity|].
  apply (extract_patches_from_set_patch_children
           Samples.two_patch_set).
  - reflexivity.
  - repeat constructor.
  - reflexivity.
Defined.

(** A patch with one strip under "channelStrips": that strip is parsed.  A
    node whose "channelStrips" is empty: the list under "strips" is not
    looked at, and no entry looks like strips.  A node whose strips lie
    under another key: the first entry that looks like strips is taken. *)
Lemma extract_channel_strips_one_per_element_witness :
  (exists strips raws,
     extract_channel_strips Samples.lead_patch = Ok strips
     /\ Forall2 (fun raw cs => parse_channel_strip raw = Ok cs)
                raws strips
     /\ raws = [Samples.piano_strip])
  /\ (exists strips raws,
        extract_channel_strips (VDict Samples.empty_then_strips) = Ok strips
        /\ Forall2 (fun raw cs => parse_channel_strip raw = Ok cs)
                   raws strips
        /\ raws = [])
  /\ (exists strips raws,
        extract_channel_strips (VDict Samples.unknown_key_strips) = Ok strips
        /\ Forall2 (fun raw cs => parse_channel_strip raw = Ok cs)
                   raws strips
        /\ raws = [VDict [(lit "name", VStr (lit "A"));
                          (lit "stripType", VStr (lit "audio"))]]).
Proof.
  split; [|split].
  - eexists.
    destruct (extract_channel_strips_one_per_element
                [(lit "class", VStr (lit "Patch"));
                 (lit "name", VStr (lit "Lead/Solo"));
                 (lit "channelStrips", VList [Samples.piano_strip])]
                _ eq_refl) as [raws [F [H _]]].
    exists raws. split; [reflexivity|]. split; [exact F|].
    apply (H [] (lit "channelStrips") (tl strip_list_keys)
             Samples.piano_strip []);
      [reflexivity | constructor | reflexivity].
  - eexists.
    destruct (extract_channel_strips_one_per_element
                Samples.empty_then_strips _ eq_refl) as [raws [F [_ H]]].
    exists raws. split; [reflexivity|]. split; [exact F|].
    apply H.
    + right. exists [], (lit "channelStrips"), (tl strip_list_keys).
      split; [reflexivity|]. split; [constructor | reflexivity].
    + repeat constructor.
  - eexists.
    destruct (extract_channel_strips_one_per_element
                Samples.unknown_key_strips _ eq_refl) as [raws [F [_ H]]].
    exists raws. split; [reflexivity|]. split; [exact F|].
    assert (N : no_known_strips Samples.unknown_key_strips)
      by (left; repeat constructor).
    apply (proj1 (H N)
             [(lit "tags", VList [VStr (lit "live")])] (lit "mixer") _ []);
      [reflexivity | repeat constructor | reflexivity].
Defined.

Lemma legacy_transpose_from_note_object_witness :
  exists cs,
    parse_legacy_channel (VDict (Fixture.legacy_channel [x01])) None
    = Ok (Some cs)
    /\ ChannelStrip.transpose cs
       = match coerce_int (dict_get Samples.note_object (lit "transpose")) with
         | Some z => z
         | None => 0
         end
    /\ (ChannelStrip.key_range cs = None
        <-> coerce_int (dict_get Samples.note_object (lit "lowNote")) = None
            \/ coerce_int (dict_get Samples.note_object (lit "highNote")) = None).
Proof.
  eapply (legacy_transpose_from_note_object
            (Fixture.legacy_channel [x01]) None [x01]); reflexivity.
Defined.

Lemma tempo_legacy_and_walker_witness :
  infer_bpm_from_node (VDict Samples.following_patch)
  = Ok (Some (S754_finite false 8444249301319680 (-46)))
  /\ infer_bpm_from_patch_dict
       (VDict [(lit "patch", VDict Samples.following_patch)])
     = None.
Proof.
  apply (tempo_legacy_and_walker
           [(lit "patch", VDict Samples.following_patch)]
           Samples.following_patch Samples.following_engine);
    reflexivity.
Defined.

Lemma extract_sets_and_patches_well_formed_witness :
  exists sets,
    extract_sets_and_patches (VDict Samples.nested_document)
    = Ok sets
    /\ List.length sets = 1%nat
    /\ Forall (fun s => Forall patch_ok (Set_.patches s)) sets.
Proof.
  eexists. split; [reflexivity|]. split; [reflexivity|].
  apply (extract_sets_and_patches_well_formed
           (VDict Samples.nested_document)).
  reflexivity.
Defined.

(** A strip with an instrument plugin and an insert: the source is the
    instrument, field by field. *)
Lemma layer_source_of_parsed_strip_witness :
  exists cs,
    parse_channel_strip Samples.synth_strip = Ok cs
    /\ List.length (ChannelStrip.plugins cs) = 2%nat
    /\ source (layer_from_strip cs)
       = PluginSource (lit "Alchemy") (Some (lit "Apple")) (Some (lit "aumu"))
                      (Some (lit "com.apple.alchemy")).
Proof.
  eexists. split; [reflexivity|]. split; [reflexivity|].
  exact (proj1 (proj1 (layer_source_of_parsed_strip Samples.synth_strip _ eq_refl)
                  _ _ eq_refl)).
Defined.

Lemma Forall2_head {A C} (R : A -> C -> Prop) a l b l' :
  Forall2 R (a :: l) (b :: l') -> R a b.
Proof. intros H. inversion H. assumption. Qed.

Lemma grouped_tempo_first_declared_witness :
  exists song,
    songs (build_camelot_session (lit "2026-01-01T20:00:00")
             Samples.three_patch_concert false (lit "Rig.concert"))
    = [song]
    /\ lookup (song_metadata song) (lit "bpm") = Some (VInt 120).
Proof.
  eexists. split; [reflexivity|].
  refine (proj1 (Forall2_head _ _ _ _ _
            (grouped_tempo_first_declared (lit "2026-01-01T20:00:00")
               Samples.three_patch_concert (lit "Rig.concert")))
            [Patch.mk (lit "Intro") [] []]
            (Patch.mk (lit "Verse") [] [(lit "bpm", VInt 120)])
            [Patch.mk (lit "Outro") [] []] eq_refl _ eq_refl).
  repeat constructor.
Defined.

End Instances.
